(** * Day 17 — Chronospatial Computer

    A shallow embedding of [aoc::day17] (day17.hpp / day17.cpp): the
    register machine ([Computer]), its single step ([executeInstruction]),
    the run-to-halt loop ([run]) and the textual front end ([parseInput],
    [runProgram]), followed by the properties established about them.

    Conventions of the embedding:
    - [int64_t] registers and [int] program entries are integers of [Z];
      none of the operations the machine applies to them ([>>] by an
      in-range amount, [^], [%]) can leave the 64-bit range, so no
      wrap-around is needed on registers;
    - [size_t] values are naturals of [N], and the two places where the
      source computes on one ([instructionPointer += 2], the cast of a jump
      operand) reduce modulo [2^64] explicitly;
    - [std::vector::at], [std::string::substr], [std::stoll] and [std::stoi]
      throw; a thrown exception is an explicit outcome;
    - a shift by an amount outside [0, 63] and a read of a register that was
      never assigned have no defined behaviour in C++; both are the explicit
      outcome [Undefined]. *)

From Stdlib Require Import ZArith NArith List String Ascii Bool Lia.
From Stdlib Require Import DecimalString DecimalPos.
Import ListNotations.

#[local] Open Scope Z_scope.

(** The two standard exceptions the module can raise. *)
Inductive exception : Type :=
| std_out_of_range
| std_invalid_argument.

(** ** Machine words *)

Definition size_t_modulus : N := 2 ^ 64.

(** [std::vector<int>::max_size()] on an LP64 target
    ([PTRDIFF_MAX / sizeof(int)]). *)
Definition vector_max_size : N := 2 ^ 61 - 1.

(** [static_cast<size_t>(x)] for a signed [x]. *)
Definition size_t_of_int (x : Z) : N := Z.to_N (x mod Z.of_N size_t_modulus).

(** [a >> n] on [int64_t]: arithmetic shift, defined for [0 <= n < 64]. *)
Definition shift_right (a n : Z) : option Z :=
  if (0 <=? n) && (n <? 64) then Some (Z.shiftr a n) else None.

(** ** Data types of day17.hpp *)

Record ComputerState : Type := mkComputerState {
  A : Z;
  B : Z;
  C : Z;
  instructionPointer : N
}.

Record Program : Type := mkProgram {
  instructions : list Z
}.

Record Computer : Type := mkComputer {
  program_ : Program;
  state_ : ComputerState;
  output_ : list Z
}.

(** [Computer::Computer(program, A, B, C)]. *)
Definition Computer_new (program : Program) (a b c : Z) : Computer :=
  {| program_ := program;
     state_ := mkComputerState a b c 0;
     output_ := [] |}.

(** [instructions.size()] and [instructions.at(i)]. *)
Definition size (v : list Z) : N := N.of_nat (List.length v).

Definition at_ (v : list Z) (i : N) : option Z := nth_error v (N.to_nat i).

(** The result of one call of a mutating member function: the object after a
    normal return, the exception thrown together with the object as the
    throw leaves it, or undefined behaviour. *)
Inductive outcome : Type :=
| Normal (c : Computer)
| Throws (e : exception) (c : Computer)
| Undefined.

(** ** Computer member functions (day17.cpp) *)

Definition resolveCombo (c : Computer) (operand : Z) : Z :=
  match operand with
  | 0 | 1 | 2 | 3 => operand
  | 4 => A (state_ c)
  | 5 => B (state_ c)
  | 6 => C (state_ c)
  | _ => 0
  end.

Definition isHalted (c : Computer) : bool :=
  (size (instructions (program_ c)) <=? instructionPointer (state_ c))%N.

Definition set_A (c : Computer) (v : Z) : Computer :=
  let s := state_ c in
  mkComputer (program_ c) (mkComputerState v (B s) (C s) (instructionPointer s))
             (output_ c).

Definition set_B (c : Computer) (v : Z) : Computer :=
  let s := state_ c in
  mkComputer (program_ c) (mkComputerState (A s) v (C s) (instructionPointer s))
             (output_ c).

Definition set_C (c : Computer) (v : Z) : Computer :=
  let s := state_ c in
  mkComputer (program_ c) (mkComputerState (A s) (B s) v (instructionPointer s))
             (output_ c).

Definition set_instructionPointer (c : Computer) (p : N) : Computer :=
  let s := state_ c in
  mkComputer (program_ c) (mkComputerState (A s) (B s) (C s) p) (output_ c).

Definition push_back (c : Computer) (v : Z) : Computer :=
  mkComputer (program_ c) (state_ c) (output_ c ++ [v]).

(** The tail of [executeInstruction]: [if (!jumped) instructionPointer += 2]. *)
Definition advance (c : Computer) : Computer :=
  set_instructionPointer c
    ((instructionPointer (state_ c) + 2) mod size_t_modulus)%N.

(** The [switch (opcode)] of [executeInstruction] together with the pointer
    update that follows it. *)
Definition dispatch (c : Computer) (opcode operand : Z) : outcome :=
  match opcode with
  | 0 => (* adv *)
      match shift_right (A (state_ c)) (resolveCombo c operand) with
      | Some v => Normal (advance (set_A c v))
      | None => Undefined
      end
  | 1 => (* bxl *)
      Normal (advance (set_B c (Z.lxor (B (state_ c)) operand)))
  | 2 => (* bst *)
      Normal (advance (set_B c (Z.rem (resolveCombo c operand) 8)))
  | 3 => (* jnz *)
      if A (state_ c) =? 0
      then Normal (advance c)
      else Normal (set_instructionPointer c (size_t_of_int operand))
  | 4 => (* bxc *)
      Normal (advance (set_B c (Z.lxor (B (state_ c)) (C (state_ c)))))
  | 5 => (* out *)
      Normal (advance (push_back c (Z.rem (resolveCombo c operand) 8)))
  | 6 => (* bdv *)
      match shift_right (A (state_ c)) (resolveCombo c operand) with
      | Some v => Normal (advance (set_B c v))
      | None => Undefined
      end
  | 7 => (* cdv *)
      match shift_right (A (state_ c)) (resolveCombo c operand) with
      | Some v => Normal (advance (set_C c v))
      | None => Undefined
      end
  | _ => Normal (advance c)
  end.

Definition executeInstruction (c : Computer) : outcome :=
  if isHalted c then Normal c
  else
    let v := instructions (program_ c) in
    let ip := instructionPointer (state_ c) in
    match at_ v ip with
    | None => Throws std_out_of_range c
    | Some opcode =>
        match at_ v ((ip + 1) mod size_t_modulus)%N with
        | None => Throws std_out_of_range c
        | Some operand => dispatch c opcode operand
        end
    end.

(** [run]: [while (!isHalted()) executeInstruction();].  The loop has no
    bound in the source; [fuel] bounds the number of calls of
    [executeInstruction], and [None] means the bound was reached while the
    machine was still running. *)
Fixpoint run (fuel : nat) (c : Computer) : option outcome :=
  if isHalted c then Some (Normal c)
  else
    match fuel with
    | O => None
    | S fuel' =>
        match executeInstruction c with
        | Normal c' => run fuel' c'
        | Throws e c' => Some (Throws e c')
        | Undefined => Some Undefined
        end
    end.

Definition getOutput (c : Computer) : list Z := output_ c.
Definition getState (c : Computer) : ComputerState := state_ c.

(** ** Text utilities of the standard library used by the parser *)

(** The value of a function that either returns or throws. *)
Inductive result (T : Type) : Type :=
| Returns (x : T)
| Raises (e : exception).

Arguments Returns {T} x.
Arguments Raises {T} e.

Definition bind {T U : Type} (r : result T) (k : T -> result U) : result U :=
  match r with
  | Returns x => k x
  | Raises e => Raises e
  end.

Notation "x <- r ;; k" := (bind r (fun x => k))
  (at level 61, r at next level, right associativity).

(** [std::isspace] in the "C" locale: space, and the controls 9 to 13. *)
Definition isspace (ch : ascii) : bool :=
  let n := N_of_ascii ch in
  ((n =? 32) || ((9 <=? n) && (n <=? 13)))%N.

Definition isdigit (ch : ascii) : bool :=
  let n := N_of_ascii ch in
  ((48 <=? n) && (n <=? 57))%N.

Definition digit_value (ch : ascii) : Z := Z.of_N (N_of_ascii ch) - 48.

(** [line.starts_with(p)]. *)
Definition starts_with (line p : string) : bool := String.prefix p line.

Fixpoint drop (n : nat) (s : string) : option string :=
  match n, s with
  | O, _ => Some s
  | S n', String _ s' => drop n' s'
  | S _, EmptyString => None
  end.

(** [s.substr(pos)]: throws [std::out_of_range] when [pos > s.size()]. *)
Definition substr (s : string) (pos : nat) : result string :=
  match drop pos s with
  | Some r => Returns r
  | None => Raises std_out_of_range
  end.

(** The conversion of [strtol]/[strtoll] in base 10: leading white space is
    skipped, then an optional sign, then the longest run of digits; what
    follows the digits is ignored. *)
Fixpoint skip_space (s : string) : string :=
  match s with
  | String ch s' => if isspace ch then skip_space s' else s
  | EmptyString => EmptyString
  end.

Definition read_sign (s : string) : bool * string :=
  match s with
  | String ch s' =>
      if Ascii.eqb ch "-" then (true, s')
      else if Ascii.eqb ch "+" then (false, s')
      else (false, s)
  | EmptyString => (false, s)
  end.

(** [None] as long as no digit has been read. *)
Fixpoint read_digits (acc : option Z) (s : string) : option Z :=
  match s with
  | String ch s' =>
      if isdigit ch
      then read_digits
             (Some (10 * match acc with Some v => v | None => 0 end
                    + digit_value ch)) s'
      else acc
  | EmptyString => acc
  end.

(** [std::stoll] / [std::stoi]: [std::invalid_argument] when no digit could
    be converted, [std::out_of_range] when the value does not fit the
    result type. *)
Definition string_to_integer (lo hi : Z) (s : string) : result Z :=
  let (negative, rest) := read_sign (skip_space s) in
  match read_digits None rest with
  | None => Raises std_invalid_argument
  | Some v =>
      let v := if negative then - v else v in
      if (lo <=? v) && (v <=? hi) then Returns v else Raises std_out_of_range
  end.

Definition stoll : string -> result Z :=
  string_to_integer (- 2 ^ 63) (2 ^ 63 - 1).

Definition stoi : string -> result Z :=
  string_to_integer (- 2 ^ 31) (2 ^ 31 - 1).

(** The tokens produced by [while (std::getline(ss, token, ','))] on a
    stream holding [s]: [token] collects the characters read since the last
    delimiter; a delimiter ends a token (possibly empty), and at the end of
    the stream a last token is extracted only if some character remains. *)
Fixpoint getline_loop (token : string) (s : string) : list string :=
  match s with
  | EmptyString =>
      match token with
      | EmptyString => []
      | _ => [token]
      end
  | String ch s' =>
      if Ascii.eqb ch ","
      then token :: getline_loop EmptyString s'
      else getline_loop (token ++ String ch EmptyString) s'
  end.

(** [std::to_string(int)]. *)
Definition to_string (v : Z) : string := NilZero.string_of_int (Z.to_int v).

(** ** Parsing (day17.cpp) *)

Module ParsedInput.

(** [struct ParsedInput].  It is default-initialised by [parseInput], which
    leaves the three registers without a value until a line assigns them:
    [None] is a register that was never assigned. *)
Record t : Type := mk {
  A : option Z;
  B : option Z;
  C : option Z;
  program : list Z
}.

Definition default : t := mk None None None [].

Definition set_A (r : t) (v : Z) : t := mk (Some v) (B r) (C r) (program r).

Definition set_B (r : t) (v : Z) : t := mk (A r) (Some v) (C r) (program r).

Definition set_C (r : t) (v : Z) : t := mk (A r) (B r) (Some v) (program r).

Definition push_back (r : t) (v : Z) : t :=
  mk (A r) (B r) (C r) (program r ++ [v]).

End ParsedInput.

(** The body of the token loop: [result.program.push_back(std::stoi(token))]. *)
Fixpoint push_tokens (r : ParsedInput.t) (tokens : list string)
  : result ParsedInput.t :=
  match tokens with
  | [] => Returns r
  | token :: tokens' =>
      v <- stoi token ;;
      push_tokens (ParsedInput.push_back r v) tokens'
  end.

(** The body of [for (const auto& line : input)]. *)
Definition parse_line (r : ParsedInput.t) (line : string)
  : result ParsedInput.t :=
  if starts_with line "Register A:" then
    s <- substr line 11 ;; v <- stoll s ;; Returns (ParsedInput.set_A r v)
  else if starts_with line "Register B:" then
    s <- substr line 11 ;; v <- stoll s ;; Returns (ParsedInput.set_B r v)
  else if starts_with line "Register C:" then
    s <- substr line 11 ;; v <- stoll s ;; Returns (ParsedInput.set_C r v)
  else if starts_with line "Program:" then
    program_str <- substr line 9 ;;
    push_tokens r (getline_loop EmptyString program_str)
  else Returns r.

Fixpoint parse_lines (r : ParsedInput.t) (input : list string)
  : result ParsedInput.t :=
  match input with
  | [] => Returns r
  | line :: input' => r' <- parse_line r line ;; parse_lines r' input'
  end.

Definition parseInput (input : list string) : result ParsedInput.t :=
  parse_lines ParsedInput.default input.

(** ** Solver (day17.cpp) *)

(** The loop of [runProgram] that joins the output with commas. *)
Fixpoint join_output (result : string) (i : nat) (output : list Z) : string :=
  match output with
  | [] => result
  | v :: output' =>
      let result := match i with
                    | O => result
                    | S _ => (result ++ ",")%string
                    end in
      join_output (result ++ to_string v)%string (S i) output'
  end.

(** What a call of [runProgram] amounts to. *)
Inductive run_result : Type :=
| Answer (s : string)
| Exception (e : exception)
| UndefinedBehaviour.

(** [runProgram]; [None] when [fuel] steps did not bring the machine to a
    halt.  The constructor of [Computer] reads the three parsed registers,
    assigned or not. *)
Definition runProgram (fuel : nat) (input : list string) : option run_result :=
  match parseInput input with
  | Raises e => Some (Exception e)
  | Returns parsed =>
      match ParsedInput.A parsed, ParsedInput.B parsed, ParsedInput.C parsed with
      | Some a, Some b, Some c =>
          let program := mkProgram (ParsedInput.program parsed) in
          match run fuel (Computer_new program a b c) with
          | None => None
          | Some (Normal computer) =>
              Some (Answer (join_output EmptyString 0 (getOutput computer)))
          | Some (Throws e _) => Some (Exception e)
          | Some Undefined => Some UndefinedBehaviour
          end
      | _, _, _ => Some UndefinedBehaviour
      end
  end.

Definition solve_part1 (fuel : nat) (input : list string) : option run_result :=
  runProgram fuel input.

(** ** Vocabulary of the properties *)

(** A program that a [std::vector<int>] can hold. *)
Definition size_ok (p : Program) : Prop :=
  (size (instructions p) <= vector_max_size)%N.

(** A Program in the sense of the data model: entries in [0, 7]. *)
Definition valid_program (p : Program) : Prop :=
  Forall (fun x => 0 <= x <= 7) (instructions p).

Definition nonneg_registers (c : Computer) : Prop :=
  0 <= A (state_ c) /\ 0 <= B (state_ c) /\ 0 <= C (state_ c).

(** [steps c c']: [c'] is reached from [c] by finitely many calls of
    [executeInstruction] that return normally. *)
Inductive steps : Computer -> Computer -> Prop :=
| steps_refl c : steps c c
| steps_next c c' c'' :
    executeInstruction c = Normal c' -> steps c' c'' -> steps c c''.

(** The three register lines of the input format. *)
Inductive register : Type := RegisterA | RegisterB | RegisterC.

Definition register_prefix (x : register) : string :=
  match x with
  | RegisterA => "Register A:"
  | RegisterB => "Register B:"
  | RegisterC => "Register C:"
  end.

Definition register_field (x : register) (r : ParsedInput.t) : option Z :=
  match x with
  | RegisterA => ParsedInput.A r
  | RegisterB => ParsedInput.B r
  | RegisterC => ParsedInput.C r
  end.

(** White space only. *)
Fixpoint all_space (s : string) : bool :=
  match s with
  | EmptyString => true
  | String ch s' => isspace ch && all_space s'
  end.

(** [line'] is [line] followed by white space. *)
Definition trailing_space (line line' : string) : Prop :=
  exists ws, all_space ws = true /\ line' = (line ++ ws)%string.

(** [line'] is [line] between white space. *)
Definition surrounding_space (line line' : string) : Prop :=
  exists ws1 ws2,
    all_space ws1 = true /\ all_space ws2 = true /\
    line' = (ws1 ++ line ++ ws2)%string.

Fixpoint all_digits (s : string) : bool :=
  match s with
  | EmptyString => true
  | String ch s' => isdigit ch && all_digits s'
  end.

(** The [<integer>] of the input format: an optional minus sign and at least
    one digit. *)
Definition is_integer (s : string) : bool :=
  match s with
  | EmptyString => false
  | String ch s' =>
      if Ascii.eqb ch "-"
      then match s' with EmptyString => false | _ => all_digits s' end
      else all_digits s
  end.

(** A token of the Program line holds no delimiter. *)
Fixpoint no_comma (s : string) : bool :=
  match s with
  | EmptyString => true
  | String ch s' => negb (Ascii.eqb ch ",") && no_comma s'
  end.

(** [<int>,<int>,...] *)
Fixpoint comma_list (tokens : list string) : string :=
  match tokens with
  | [] => EmptyString
  | [token] => token
  | token :: tokens' => (token ++ "," ++ comma_list tokens')%string
  end.

(** A line of a well-formed machine description: a register line, the blank
    line, or the Program line with its non-empty list. *)
Inductive wf_line : string -> Prop :=
| wf_blank : wf_line EmptyString
| wf_register x n :
    is_integer n = true ->
    wf_line (register_prefix x ++ " " ++ n)%string
| wf_program tokens :
    tokens <> [] ->
    Forall (fun token => is_integer token = true) tokens ->
    wf_line ("Program: " ++ comma_list tokens)%string.

Definition example_input : list string :=
  [ "Register A: 729"%string; "Register B: 0"%string; "Register C: 0"%string;
    EmptyString; "Program: 0,1,5,4,3,0"%string ].

(** The example without its second line. *)
Definition input_without_B : list string :=
  [ "Register A: 729"%string; "Register C: 0"%string; EmptyString;
    "Program: 0,1,5,4,3,0"%string ].

(** The example with one space before its first line. *)
Definition input_leading_space : list string :=
  [ " Register A: 729"%string; "Register B: 0"%string; "Register C: 0"%string;
    EmptyString; "Program: 0,1,5,4,3,0"%string ].

(** The example with white space after its lines. *)
Definition input_trailing_space : list string :=
  [ "Register A: 729  "%string; "Register B: 0 "%string;
    "Register C: 0"%string; "   "%string; "Program: 0,1,5,4,3,0 "%string ].

(** ** Remaining members of day17.hpp / day17.cpp *)

(** [Program::isInBounds(index)]: [index + 1 < instructions.size()], the
    sum being computed on [size_t]. *)
Definition isInBounds (p : Program) (index : N) : bool :=
  ((index + 1) mod size_t_modulus <? size (instructions p))%N.

(** [solve_part2]: the search is not implemented. *)
Definition solve_part2 (input : list string) : string :=
  "Not implemented"%string.

(** An [int] of the target. *)
Definition int_range (v : Z) : Prop := - 2 ^ 31 <= v < 2 ^ 31.

(** An [int64_t]. *)
Definition int64_range (v : Z) : Prop := - 2 ^ 63 <= v < 2 ^ 63.

(** Every jump instruction found at an even index has an even operand. *)
Definition aligned_jumps (p : Program) : Prop :=
  forall i operand,
    N.even i = true ->
    at_ (instructions p) i = Some 3 ->
    at_ (instructions p) (i + 1) = Some operand ->
    Z.even operand = true.

(** No jump instruction at an even index. *)
Definition jump_free (p : Program) : Prop :=
  forall i, N.even i = true -> at_ (instructions p) i <> Some 3.

(** The value of a decimal numeral read after the digits worth [acc]. *)
Fixpoint uint_value (d : Decimal.uint) (acc : Z) : Z :=
  match d with
  | Decimal.Nil => acc
  | Decimal.D0 l => uint_value l (10 * acc + 0)
  | Decimal.D1 l => uint_value l (10 * acc + 1)
  | Decimal.D2 l => uint_value l (10 * acc + 2)
  | Decimal.D3 l => uint_value l (10 * acc + 3)
  | Decimal.D4 l => uint_value l (10 * acc + 4)
  | Decimal.D5 l => uint_value l (10 * acc + 5)
  | Decimal.D6 l => uint_value l (10 * acc + 6)
  | Decimal.D7 l => uint_value l (10 * acc + 7)
  | Decimal.D8 l => uint_value l (10 * acc + 8)
  | Decimal.D9 l => uint_value l (10 * acc + 9)
  end.

(** A conversion stops in front of [rest]: the end of the string, or a
    character that is not a digit. *)
Definition stops (rest : string) : bool :=
  match rest with
  | EmptyString => true
  | String ch _ => negb (isdigit ch)
  end.

(** The text of a machine description, as the input format lays it out. *)
Definition render_input (a b c : Z) (program : list Z) : list string :=
  [ ("Register A: " ++ to_string a)%string;
    ("Register B: " ++ to_string b)%string;
    ("Register C: " ++ to_string c)%string;
    EmptyString;
    ("Program: " ++ String.concat "," (map to_string program))%string ].

(** What [runProgram] makes of the end of a run. *)
Definition render_outcome (o : option outcome) : option run_result :=
  match o with
  | None => None
  | Some (Normal computer) =>
      Some (Answer (String.concat "," (map to_string (getOutput computer))))
  | Some (Throws e _) => Some (Exception e)
  | Some Undefined => Some UndefinedBehaviour
  end.

(** A line that [parseInput] reacts to. *)
Definition recognised (line : string) : bool :=
  starts_with line "Register A:" || starts_with line "Register B:" ||
  starts_with line "Register C:" || starts_with line "Program:".

(** The assignment a register line performs. *)
Definition set_register (x : register) (r : ParsedInput.t) (v : Z)
  : ParsedInput.t :=
  match x with
  | RegisterA => ParsedInput.set_A r v
  | RegisterB => ParsedInput.set_B r v
  | RegisterC => ParsedInput.set_C r v
  end.

(** * Day 6 — Guard Gallivant (day06.cpp)

    [int] values are integers of [Z].  Signed overflow, a subscript out of
    range and a [resize] to a size that is not representable do not give a
    value: the functions that can meet them return an [option], and the
    simulations end in [Fault].  The [while] loops of the simulations take a
    bound on their number of iterations, [OutOfFuel] meaning that it was
    reached. *)
Module Day06.

Inductive Direction : Type := UP | RIGHT | DOWN | LEFT.

Definition Direction_to_int (dir : Direction) : Z :=
  match dir with
  | UP => 0
  | RIGHT => 1
  | DOWN => 2
  | LEFT => 3
  end.

(** [static_cast<Direction>(n)] for the value of an enumerator. *)
Definition Direction_of_int (n : Z) : Direction :=
  match n with
  | 0 => UP
  | 1 => RIGHT
  | 2 => DOWN
  | _ => LEFT
  end.

Definition get_direction_delta (dir : Direction) : Z * Z :=
  match dir with
  | UP => (0, -1)
  | RIGHT => (1, 0)
  | DOWN => (0, 1)
  | LEFT => (-1, 0)
  end.

Definition turn_right (dir : Direction) : Direction :=
  Direction_of_int (Z.rem (Direction_to_int dir + 1) 4).

Record Position : Type := mkPosition {
  x : Z;
  y : Z
}.

Inductive outcome (T : Type) : Type :=
| Done (v : T)
| Fault
| OutOfFuel.

Arguments Done {T} v.
Arguments Fault {T}.
Arguments OutOfFuel {T}.

(** The value of an [int] expression, when it is representable. *)
Definition int_ok (v : Z) : option Z :=
  if (- 2 ^ 31 <=? v) && (v <? 2 ^ 31) then Some v else None.

(** [static_cast<int>(n)] for a [size_t]. *)
Definition int_of_size (n : nat) : Z :=
  (Z.of_nat n + 2 ^ 31) mod 2 ^ 32 - 2 ^ 31.

(** The subscript [y * width_ + x] of the bit-packed containers. *)
Definition cell_index (width cx cy : Z) : option nat :=
  match int_ok (cy * width) with
  | Some m =>
      match int_ok (m + cx) with
      | Some i => if i <? 0 then None else Some (Z.to_nat i)
      | None => None
      end
  | None => None
  end.

(** [v[i] = e]. *)
Fixpoint assign {T : Type} (v : list T) (i : nat) (e : T) : option (list T) :=
  match v, i with
  | [], _ => None
  | _ :: v', O => Some (e :: v')
  | e0 :: v', S i' => option_map (cons e0) (assign v' i' e)
  end.

(** The number of cells [resize(width * height, ...)] allocates. *)
Definition cell_count (width height : Z) : option nat :=
  match int_ok (width * height) with
  | Some n => if n <? 0 then None else Some (Z.to_nat n)
  | None => None
  end.

Module BitPackedVisited.

Record t : Type := mk {
  bits_ : list bool;
  width_ : Z
}.

Definition new (width height : Z) : option t :=
  option_map (fun n => mk (repeat false n) width) (cell_count width height).

Definition contains (v : t) (cx cy : Z) : option bool :=
  match cell_index (width_ v) cx cy with
  | Some i => nth_error (bits_ v) i
  | None => None
  end.

Definition set (v : t) (cx cy : Z) : option t :=
  match cell_index (width_ v) cx cy with
  | Some i => option_map (fun bits => mk bits (width_ v)) (assign (bits_ v) i true)
  | None => None
  end.

Definition count (v : t) : Z :=
  fold_left (fun cnt (b : bool) => if b then cnt + 1 else cnt) (bits_ v) 0.

End BitPackedVisited.

Module BitPackedStateSet.

Record t : Type := mk {
  cells_ : list Z;
  width_ : Z
}.

(** [static_cast<uint8_t>(1) << static_cast<int>(dir)], as a [uint8_t]. *)
Definition dir_bit (dir : Direction) : Z :=
  Z.shiftl 1 (Direction_to_int dir) mod 256.

Definition new (width height : Z) : option t :=
  option_map (fun n => mk (repeat 0 n) width) (cell_count width height).

Definition contains (s : t) (cx cy : Z) (dir : Direction) : option bool :=
  match cell_index (width_ s) cx cy with
  | Some i =>
      match nth_error (cells_ s) i with
      | Some cell => Some (negb (Z.land cell (dir_bit dir) =? 0))
      | None => None
      end
  | None => None
  end.

Definition set (s : t) (cx cy : Z) (dir : Direction) : option t :=
  match cell_index (width_ s) cx cy with
  | Some i =>
      match nth_error (cells_ s) i with
      | Some cell =>
          option_map (fun cells => mk cells (width_ s))
            (assign (cells_ s) i (Z.lor cell (dir_bit dir) mod 256))
      | None => None
      end
  | None => None
  end.

End BitPackedStateSet.

Definition is_in_bounds (cx cy width height : Z) : bool :=
  (0 <=? cx) && (cx <? width) && (0 <=? cy) && (cy <? height).

(** [s[i]]: the character, or the terminating null at [i = s.size()]. *)
Definition string_at (s : string) (i : nat) : option ascii :=
  match String.get i s with
  | Some ch => Some ch
  | None => if Nat.eqb i (String.length s) then Some Ascii.zero else None
  end.

(** [grid[cy][cx]]. *)
Definition grid_at (grid : list string) (cx cy : Z) : option ascii :=
  if (cx <? 0) || (cy <? 0) then None
  else
    match nth_error grid (Z.to_nat cy) with
    | Some row => string_at row (Z.to_nat cx)
    | None => None
    end.

(** The [switch] of [find_guard_start]. *)
Definition guard_direction (ch : ascii) : option Direction :=
  if Ascii.eqb ch "^" then Some UP
  else if Ascii.eqb ch ">" then Some RIGHT
  else if Ascii.eqb ch "v" then Some DOWN
  else if Ascii.eqb ch "<" then Some LEFT
  else None.

(** The inner loop of [find_guard_start],
    [for (int x = ...; x < static_cast<int>(grid[y].size()); ++x)], with [n]
    iterations left, on the rest of a row that starts at column [cx]: the
    column and the direction of the first guard found, and the row with that
    character replaced by a dot. *)
Fixpoint scan_row (n : nat) (row : string) (cx : Z)
  : option (Z * Direction * string) :=
  match n, row with
  | S n', String ch row' =>
      match guard_direction ch with
      | Some dir => Some (cx, dir, String "." row')
      | None =>
          match scan_row n' row' (cx + 1) with
          | Some (gx, dir, new_row) => Some (gx, dir, String ch new_row)
          | None => None
          end
      end
  | _, _ => None
  end.

(** The number of iterations of a loop [for (int i = 0; i < bound; ++i)]
    whose bound is [static_cast<int>(size)]: none when the cast is
    negative. *)
Definition int_loop_count (size : nat) : nat := Z.to_nat (int_of_size size).

(** The outer loop,
    [for (int y = ...; y < static_cast<int>(grid.size()); ++y)], with [n]
    iterations left, on the rows from row [cy] on: the grid as the function
    leaves it and the tuple it returns. *)
Fixpoint scan_grid (n : nat) (grid : list string) (cy : Z)
  : list string * (Z * Z * Direction) :=
  match n, grid with
  | S n', row :: rest =>
      match scan_row (int_loop_count (String.length row)) row 0 with
      | Some (gx, dir, new_row) => (new_row :: rest, (gx, cy, dir))
      | None =>
          let (rest', found) := scan_grid n' rest (cy + 1) in
          (row :: rest', found)
      end
  | _, _ => (grid, (-1, -1, UP))
  end.

Definition find_guard_start (grid : list string)
  : list string * (Z * Z * Direction) :=
  scan_grid (int_loop_count (List.length grid)) grid 0.

(** [width] and [height] as the simulations compute them; [grid[0]] does not
    exist on an empty grid. *)
Definition dimensions (grid : list string) : option (Z * Z) :=
  match grid with
  | [] => None
  | row :: _ =>
      Some (int_of_size (String.length row), int_of_size (List.length grid))
  end.

(** The patrol loop of [simulate_patrol] (and of [solve_part2]), which ends
    with the positions visited. *)
Fixpoint patrol (fuel : nat) (grid : list string) (width height : Z)
    (visited : BitPackedVisited.t) (current_x current_y : Z)
    (current_dir : Direction) : outcome BitPackedVisited.t :=
  if is_in_bounds current_x current_y width height then
    match fuel with
    | O => OutOfFuel
    | S fuel' =>
        match BitPackedVisited.set visited current_x current_y with
        | None => Fault
        | Some visited' =>
            let (dx, dy) := get_direction_delta current_dir in
            let next_x := current_x + dx in
            let next_y := current_y + dy in
            if is_in_bounds next_x next_y width height then
              match grid_at grid next_x next_y with
              | None => Fault
              | Some ch =>
                  if Ascii.eqb ch "#"
                  then patrol fuel' grid width height visited'
                         current_x current_y (turn_right current_dir)
                  else patrol fuel' grid width height visited'
                         next_x next_y current_dir
              end
            else patrol fuel' grid width height visited'
                   next_x next_y current_dir
        end
    end
  else Done visited.

Definition simulate_patrol (fuel : nat) (grid : list string)
    (start_x start_y : Z) (start_dir : Direction) : outcome Z :=
  match dimensions grid with
  | None => Fault
  | Some (width, height) =>
      match BitPackedVisited.new width height with
      | None => Fault
      | Some visited =>
          match patrol fuel grid width height visited
                  start_x start_y start_dir with
          | Done visited' => Done (BitPackedVisited.count visited')
          | Fault => Fault
          | OutOfFuel => OutOfFuel
          end
      end
  end.

Definition solve_part1 (fuel : nat) (input : list string) : outcome string :=
  let '(grid, (start_x, start_y, start_dir)) := find_guard_start input in
  match simulate_patrol fuel grid start_x start_y start_dir with
  | Done n => Done (to_string n)
  | Fault => Fault
  | OutOfFuel => OutOfFuel
  end.

(** The [while (true)] loop of [simulate_with_loop_detection]. *)
Fixpoint detect (fuel : nat) (grid : list string) (width height : Z)
    (obstruction_pos : option Position) (visited : BitPackedStateSet.t)
    (current_x current_y : Z) (current_dir : Direction) : outcome bool :=
  match fuel with
  | O => OutOfFuel
  | S fuel' =>
      if negb (is_in_bounds current_x current_y width height) then Done false
      else
        match BitPackedStateSet.contains visited
                current_x current_y current_dir with
        | None => Fault
        | Some true => Done true
        | Some false =>
            match BitPackedStateSet.set visited
                    current_x current_y current_dir with
            | None => Fault
            | Some visited' =>
                let (dx, dy) := get_direction_delta current_dir in
                let next_x := current_x + dx in
                let next_y := current_y + dy in
                let blocked :=
                  if is_in_bounds next_x next_y width height then
                    match grid_at grid next_x next_y with
                    | None => None
                    | Some ch =>
                        Some (Ascii.eqb ch "#" ||
                              match obstruction_pos with
                              | Some pos =>
                                  (next_x =? x pos) && (next_y =? y pos)
                              | None => false
                              end)
                    end
                  else Some false in
                match blocked with
                | None => Fault
                | Some true =>
                    detect fuel' grid width height obstruction_pos visited'
                      current_x current_y (turn_right current_dir)
                | Some false =>
                    detect fuel' grid width height obstruction_pos visited'
                      next_x next_y current_dir
                end
            end
        end
  end.

Definition simulate_with_loop_detection (fuel : nat) (grid : list string)
    (start_x start_y : Z) (start_dir : Direction)
    (obstruction_pos : option Position) : outcome bool :=
  match dimensions grid with
  | None => Fault
  | Some (width, height) =>
      match BitPackedStateSet.new width height with
      | None => Fault
      | Some visited =>
          detect fuel grid width height obstruction_pos visited
            start_x start_y start_dir
      end
  end.

(** [0, 1, ..., n - 1] as [int]s. *)
Definition int_range_list (n : Z) : list Z :=
  map Z.of_nat (seq 0 (Z.to_nat n)).

(** The cells in the order of the nested [for] loops of [solve_part2]. *)
Definition all_cells (width height : Z) : list (Z * Z) :=
  flat_map (fun cy => map (fun cx => (cx, cy)) (int_range_list width))
    (int_range_list height).

(** The candidate loop of [solve_part2]. *)
Fixpoint count_loops (fuel : nat) (grid : list string)
    (start_x start_y : Z) (start_dir : Direction)
    (visited : BitPackedVisited.t) (cells : list (Z * Z)) (count : Z)
  : outcome Z :=
  match cells with
  | [] => Done count
  | (cx, cy) :: cells' =>
      if (cx =? start_x) && (cy =? start_y)
      then count_loops fuel grid start_x start_y start_dir visited cells' count
      else
        match BitPackedVisited.contains visited cx cy with
        | None => Fault
        | Some false =>
            count_loops fuel grid start_x start_y start_dir visited cells' count
        | Some true =>
            match grid_at grid cx cy with
            | None => Fault
            | Some ch =>
                if Ascii.eqb ch "#"
                then count_loops fuel grid start_x start_y start_dir visited
                       cells' count
                else
                  match simulate_with_loop_detection fuel grid
                          start_x start_y start_dir
                          (Some (mkPosition cx cy)) with
                  | Done true =>
                      count_loops fuel grid start_x start_y start_dir visited
                        cells' (count + 1)
                  | Done false =>
                      count_loops fuel grid start_x start_y start_dir visited
                        cells' count
                  | Fault => Fault
                  | OutOfFuel => OutOfFuel
                  end
            end
        end
  end.

Definition solve_part2 (fuel : nat) (input : list string) : outcome string :=
  let '(grid, (start_x, start_y, start_dir)) := find_guard_start input in
  match dimensions grid with
  | None => Fault
  | Some (width, height) =>
      match BitPackedVisited.new width height with
      | None => Fault
      | Some visited =>
          match patrol fuel grid width height visited
                  start_x start_y start_dir with
          | Done visited' =>
              match count_loops fuel grid start_x start_y start_dir visited'
                      (all_cells width height) 0 with
              | Done n => Done (to_string n)
              | Fault => Fault
              | OutOfFuel => OutOfFuel
              end
          | Fault => Fault
          | OutOfFuel => OutOfFuel
          end
      end
  end.

(** ** Vocabulary of the properties of day 6 *)

Definition Direction_eqb (d1 d2 : Direction) : bool :=
  Direction_to_int d1 =? Direction_to_int d2.

(** Dimensions the containers can be built for. *)
Definition fits (width height : Z) : Prop :=
  0 <= width /\ 0 <= height /\ width * height < 2 ^ 31.

(** A visited-set, respectively a state-set, built for [width * height]. *)
Definition visited_for (width height : Z) (v : BitPackedVisited.t) : Prop :=
  BitPackedVisited.width_ v = width /\
  List.length (BitPackedVisited.bits_ v) = Z.to_nat (width * height).

Definition states_for (width height : Z) (s : BitPackedStateSet.t) : Prop :=
  BitPackedStateSet.width_ s = width /\
  List.length (BitPackedStateSet.cells_ s) = Z.to_nat (width * height).

(** A grid of [height] rows of [width] characters, at least one row. *)
Definition rectangular (grid : list string) (width height : Z) : Prop :=
  grid <> [] /\
  Z.of_nat (List.length grid) = height /\
  height < 2 ^ 31 /\
  Forall (fun row => Z.of_nat (String.length row) = width) grid.

(** A grid whose number of rows and whose row lengths are values of [int]. *)
Definition int_sized (grid : list string) : Prop :=
  Z.of_nat (List.length grid) < 2 ^ 31 /\
  Forall (fun row => Z.of_nat (String.length row) < 2 ^ 31) grid.

(** No guard character in a row. *)
Fixpoint no_guard (row : string) : bool :=
  match row with
  | EmptyString => true
  | String ch row' =>
      match guard_direction ch with
      | None => no_guard row'
      | Some _ => false
      end
  end.

(** The guard: a position and a direction. *)
Definition guard : Type := (Z * Z * Direction)%type.

(** Something stands on cell [(cx, cy)]: an obstacle of the grid or the
    added obstruction. *)
Definition blocked (grid : list string) (obstruction_pos : option Position)
    (cx cy : Z) : bool :=
  match grid_at grid cx cy with
  | Some ch => Ascii.eqb ch "#"
  | None => false
  end ||
  match obstruction_pos with
  | Some pos => (cx =? x pos) && (cy =? y pos)
  | None => false
  end.

(** The rule of the patrol: turn right in front of something, else step
    forward. *)
Definition guard_step (grid : list string) (width height : Z)
    (obstruction_pos : option Position) (g : guard) : guard :=
  let '(cx, cy, dir) := g in
  let (dx, dy) := get_direction_delta dir in
  if is_in_bounds (cx + dx) (cy + dy) width height &&
     blocked grid obstruction_pos (cx + dx) (cy + dy)
  then (cx, cy, turn_right dir)
  else (cx + dx, cy + dy, dir).

(** The guard after [n] applications of the rule. *)
Fixpoint walk (grid : list string) (width height : Z)
    (obstruction_pos : option Position) (n : nat) (g : guard) : guard :=
  match n with
  | O => g
  | S n' =>
      walk grid width height obstruction_pos n'
        (guard_step grid width height obstruction_pos g)
  end.

Definition on_map (width height : Z) (g : guard) : bool :=
  let '(cx, cy, _) := g in is_in_bounds cx cy width height.

Definition position (g : guard) : Z * Z := fst g.

(** [cells] lists the cells of the map the visited-set answers yes for. *)
Definition holds_cells (width height : Z) (v : BitPackedVisited.t)
    (cells : list (Z * Z)) : Prop :=
  forall cx cy,
    is_in_bounds cx cy width height = true ->
    exists b,
      BitPackedVisited.contains v cx cy = Some b /\
      (b = true <-> In (cx, cy) cells).

(** [states] lists the states of the map the state-set answers yes for. *)
Definition holds_states (width height : Z) (s : BitPackedStateSet.t)
    (states : list guard) : Prop :=
  forall cx cy dir,
    is_in_bounds cx cy width height = true ->
    exists b,
      BitPackedStateSet.contains s cx cy dir = Some b /\
      (b = true <-> In (cx, cy, dir) states).

(** A cell where a new obstruction traps the guard that starts at [start]
    and whose unobstructed walk has [k] states on the map: not the starting
    cell, on the unobstructed path, free of obstacle, and such that with the
    obstruction there the guard never leaves the map. *)
Definition loop_position (grid : list string) (width height : Z)
    (start : guard) (k : nat) (cell : Z * Z) : Prop :=
  cell <> position start /\
  (exists j, (j < k)%nat /\
             position (walk grid width height None j start) = cell) /\
  grid_at grid (fst cell) (snd cell) <> Some "#"%char /\
  forall n,
    on_map width height
      (walk grid width height (Some (mkPosition (fst cell) (snd cell))) n
         start) = true.

(** Every cell of the map with every direction. *)
Definition all_states (width height : Z) : list guard :=
  flat_map (fun cell => map (fun dir => (cell, dir)) [UP; RIGHT; DOWN; LEFT])
    (all_cells width height).

End Day06.

(** * Properties of the machine *)

Ltac small_int z :=
  destruct z as [|[[[?|?|]|[?|?|]|]|[[?|?|]|[?|?|]|]|]|?].

Lemma size_t_modulus_eq : size_t_modulus = 18446744073709551616%N.
Proof. reflexivity. Qed.

Lemma vector_max_size_eq : vector_max_size = 2305843009213693951%N.
Proof. reflexivity. Qed.

Lemma isHalted_true c :
  isHalted c = true <->
  (size (instructions (program_ c)) <= instructionPointer (state_ c))%N.
Proof. unfold isHalted. apply N.leb_le. Qed.

Lemma isHalted_false c :
  isHalted c = false <->
  (instructionPointer (state_ c) < size (instructions (program_ c)))%N.
Proof. unfold isHalted. apply N.leb_gt. Qed.

Lemma at_Some v i : (i < size v)%N -> exists x, at_ v i = Some x.
Proof.
  unfold at_, size. intros H.
  destruct (nth_error v (N.to_nat i)) as [x|] eqn:E; [now exists x|].
  apply nth_error_None in E. lia.
Qed.

Lemma at_None v i : (size v <= i)%N -> at_ v i = None.
Proof. unfold at_, size. intros H. apply nth_error_None. lia. Qed.

Lemma at_lt v i x : at_ v i = Some x -> (i < size v)%N.
Proof.
  unfold at_, size. intros H.
  assert (nth_error v (N.to_nat i) <> None) as H' by congruence.
  apply nth_error_Some in H'. lia.
Qed.

Lemma at_In v i x : at_ v i = Some x -> In x v.
Proof. unfold at_. apply nth_error_In. Qed.

(** *** Running with more fuel *)

Lemma run_halted fuel c : isHalted c = true -> run fuel c = Some (Normal c).
Proof. intros H. destruct fuel; simpl; now rewrite H. Qed.

Lemma run_more fuel : forall c r k,
  run fuel c = Some r -> run (fuel + k) c = Some r.
Proof.
  induction fuel as [|fuel IH]; intros c r k H.
  - simpl in H. destruct (isHalted c) eqn:E; [|discriminate].
    rewrite run_halted by assumption. assumption.
  - simpl in *. destruct (isHalted c); [assumption|].
    destruct (executeInstruction c); auto.
Qed.

Lemma run_fuel_irrelevant fuel1 fuel2 c r1 r2 :
  run fuel1 c = Some r1 -> run fuel2 c = Some r2 -> r1 = r2.
Proof.
  intros H1 H2.
  apply run_more with (k := fuel2) in H1.
  apply run_more with (k := fuel1) in H2.
  rewrite Nat.add_comm in H2. congruence.
Qed.

(** *** Single steps *)

Lemma pointer_plus_small c k :
  size_ok (program_ c) ->
  (instructionPointer (state_ c) < size (instructions (program_ c)))%N ->
  (k <= 2)%N ->
  ((instructionPointer (state_ c) + k) mod size_t_modulus
   = instructionPointer (state_ c) + k)%N.
Proof.
  unfold size_ok. rewrite size_t_modulus_eq, vector_max_size_eq.
  intros Hs Hlt Hk. apply N.mod_small. lia.
Qed.

(** C2. In a state that is running but whose pointer designates the last
    entry of the Program (so that [pointer + 1] is out of bounds), a step
    fails: [instructions.at(pointer + 1)] throws [std::out_of_range] — the
    failure the specification calls TruncatedProgram — and it does so before
    any register, the pointer or the output has been written: no default
    operand is substituted and the state is the one the step started from. *)
Theorem executeInstruction_truncated c :
  size_ok (program_ c) ->
  (instructionPointer (state_ c) + 1 = size (instructions (program_ c)))%N ->
  isHalted c = false /\
  executeInstruction c = Throws std_out_of_range c.
Proof.
  intros Hs Hp.
  assert (isHalted c = false) as Hh by (apply isHalted_false; lia).
  split; [assumption|].
  unfold executeInstruction. rewrite Hh.
  destruct (at_Some (instructions (program_ c)) (instructionPointer (state_ c)))
    as [opcode ->]; [lia|].
  rewrite pointer_plus_small by (try assumption; lia).
  rewrite at_None by lia. reflexivity.
Qed.

Lemma executeInstruction_truncated_witness :
  isHalted (mkComputer (mkProgram [5; 4; 3]) (mkComputerState 1 2 3 2) [7])
  = false /\
  executeInstruction
    (mkComputer (mkProgram [5; 4; 3]) (mkComputerState 1 2 3 2) [7])
  = Throws std_out_of_range
      (mkComputer (mkProgram [5; 4; 3]) (mkComputerState 1 2 3 2) [7]).
Proof.
  apply (executeInstruction_truncated
           (mkComputer (mkProgram [5; 4; 3]) (mkComputerState 1 2 3 2) [7])).
  - unfold size_ok. vm_compute. discriminate.
  - reflexivity.
Defined.

(** C6. Registers A=0, B=0, C=9 and Program [2,6]: the run terminates after
    one step (any bound of at least one step is enough) with B = 1, A and C
    untouched, an empty output and the instruction pointer at 2. *)
Theorem run_bst_scenario fuel :
  run (S fuel) (Computer_new (mkProgram [2; 6]) 0 0 9)
  = Some (Normal (mkComputer (mkProgram [2; 6]) (mkComputerState 0 1 9 2) [])).
Proof.
  change (run (S fuel) (Computer_new (mkProgram [2; 6]) 0 0 9))
    with (run fuel (mkComputer (mkProgram [2; 6]) (mkComputerState 0 1 9 2) [])).
  apply run_halted. reflexivity.
Qed.

(** C7. In a state whose current opcode is 3 (jnz), with an operand after it
    and register A equal to 0, one step returns normally with the
    instruction pointer advanced by exactly 2 and the Program, the three
    registers and the output as they were, whatever the operand. *)
Theorem executeInstruction_jnz_zero c operand :
  size_ok (program_ c) ->
  at_ (instructions (program_ c)) (instructionPointer (state_ c)) = Some 3 ->
  at_ (instructions (program_ c)) (instructionPointer (state_ c) + 1)
  = Some operand ->
  A (state_ c) = 0 ->
  executeInstruction c
  = Normal (mkComputer (program_ c)
              (mkComputerState (A (state_ c)) (B (state_ c)) (C (state_ c))
                 (instructionPointer (state_ c) + 2))
              (output_ c)).
Proof.
  intros Hs Hop Hoperand HA.
  pose proof (at_lt _ _ _ Hop) as Hlt.
  unfold executeInstruction.
  rewrite (proj2 (isHalted_false c)) by assumption.
  rewrite Hop, pointer_plus_small by (try assumption; lia).
  rewrite Hoperand. simpl. rewrite HA. simpl.
  unfold advance, set_instructionPointer.
  rewrite pointer_plus_small by (try assumption; lia).
  rewrite HA. reflexivity.
Qed.

Lemma executeInstruction_jnz_zero_witness :
  executeInstruction
    (mkComputer (mkProgram [3; 7; 5; 4]) (mkComputerState 0 5 6 0) [1])
  = Normal (mkComputer (mkProgram [3; 7; 5; 4]) (mkComputerState 0 5 6 2) [1]).
Proof.
  apply (executeInstruction_jnz_zero
           (mkComputer (mkProgram [3; 7; 5; 4]) (mkComputerState 0 5 6 0) [1])
           7).
  - unfold size_ok. vm_compute. discriminate.
  - reflexivity.
  - reflexivity.
  - reflexivity.
Defined.

Lemma executeInstruction_bxl c operand :
  size_ok (program_ c) ->
  at_ (instructions (program_ c)) (instructionPointer (state_ c)) = Some 1 ->
  at_ (instructions (program_ c)) (instructionPointer (state_ c) + 1)
  = Some operand ->
  executeInstruction c
  = Normal (mkComputer (program_ c)
              (mkComputerState (A (state_ c))
                 (Z.lxor (B (state_ c)) operand) (C (state_ c))
                 (instructionPointer (state_ c) + 2))
              (output_ c)).
Proof.
  intros Hs Hop Hoperand.
  pose proof (at_lt _ _ _ Hop) as Hlt.
  unfold executeInstruction.
  rewrite (proj2 (isHalted_false c)) by assumption.
  rewrite Hop, pointer_plus_small by (try assumption; lia).
  rewrite Hoperand. simpl.
  unfold advance, set_instructionPointer. simpl.
  rewrite pointer_plus_small by (try assumption; lia).
  reflexivity.
Qed.

(** C8. For every value of register B and every literal L in [0, 7]: where
    the Program holds the instruction (1, L) twice in a row at the pointer,
    the two steps return normally and leave B at its original value (as well
    as A, C and the output), the pointer having advanced by 4. *)
Theorem bxl_twice c L :
  0 <= L <= 7 ->
  size_ok (program_ c) ->
  at_ (instructions (program_ c)) (instructionPointer (state_ c)) = Some 1 ->
  at_ (instructions (program_ c)) (instructionPointer (state_ c) + 1)
  = Some L ->
  at_ (instructions (program_ c)) (instructionPointer (state_ c) + 2)
  = Some 1 ->
  at_ (instructions (program_ c)) (instructionPointer (state_ c) + 3)
  = Some L ->
  exists c1,
    executeInstruction c = Normal c1 /\
    B (state_ c1) = Z.lxor (B (state_ c)) L /\
    executeInstruction c1
    = Normal (mkComputer (program_ c)
                (mkComputerState (A (state_ c)) (B (state_ c)) (C (state_ c))
                   (instructionPointer (state_ c) + 4))
                (output_ c)).
Proof.
  intros _ Hs H0 H1 H2 H3.
  eexists. split; [apply executeInstruction_bxl; eassumption|].
  split; [reflexivity|].
  rewrite executeInstruction_bxl with (operand := L); simpl;
    try assumption.
  - rewrite Z.lxor_assoc, Z.lxor_nilpotent, Z.lxor_0_r.
    replace (instructionPointer (state_ c) + 2 + 2)%N
      with (instructionPointer (state_ c) + 4)%N by lia.
    reflexivity.
  - replace (instructionPointer (state_ c) + 2 + 1)%N
      with (instructionPointer (state_ c) + 3)%N by lia.
    assumption.
Qed.

Lemma bxl_twice_witness :
  exists c1,
    executeInstruction
      (mkComputer (mkProgram [1; 7; 1; 7]) (mkComputerState 0 29 0 0) [])
    = Normal c1 /\
    B (state_ c1) = Z.lxor 29 7 /\
    executeInstruction c1
    = Normal (mkComputer (mkProgram [1; 7; 1; 7]) (mkComputerState 0 29 0 4) []).
Proof.
  apply (bxl_twice
           (mkComputer (mkProgram [1; 7; 1; 7]) (mkComputerState 0 29 0 0) [])
           7).
  - lia.
  - unfold size_ok. vm_compute. discriminate.
  - reflexivity.
  - reflexivity.
  - reflexivity.
  - reflexivity.
Defined.

(** C9. On a Program of length 0 the computer is halted as constructed:
    [run] returns without a single call of [executeInstruction] (a bound of
    zero steps is enough, and any bound gives the same), the output is empty
    and the registers are the initial ones. *)
Theorem run_empty_program a b c fuel :
  isHalted (Computer_new (mkProgram []) a b c) = true /\
  run 0 (Computer_new (mkProgram []) a b c)
  = Some (Normal (mkComputer (mkProgram []) (mkComputerState a b c 0) [])) /\
  run fuel (Computer_new (mkProgram []) a b c)
  = Some (Normal (mkComputer (mkProgram []) (mkComputerState a b c 0) [])).
Proof.
  split; [reflexivity|]. split; [reflexivity|].
  apply run_halted. reflexivity.
Qed.

(** C10. In a halted state (instruction pointer at or past the length of the
    Program) a call of [executeInstruction] returns normally and leaves the
    whole computer — registers, pointer, output and Program — unchanged. *)
Theorem executeInstruction_halted c :
  (size (instructions (program_ c)) <= instructionPointer (state_ c))%N ->
  executeInstruction c = Normal c.
Proof.
  intros H. unfold executeInstruction.
  now rewrite (proj2 (isHalted_true c)).
Qed.

Lemma executeInstruction_halted_witness :
  executeInstruction
    (mkComputer (mkProgram [5; 4]) (mkComputerState 1 2 3 9) [4])
  = Normal (mkComputer (mkProgram [5; 4]) (mkComputerState 1 2 3 9) [4]).
Proof.
  apply (executeInstruction_halted
           (mkComputer (mkProgram [5; 4]) (mkComputerState 1 2 3 9) [4])).
  vm_compute. discriminate.
Defined.

(** *** The output sequence along a run *)

Lemma rem8_bounds x : -7 <= Z.rem x 8 <= 7.
Proof.
  assert (8 <> 0) as H by lia.
  pose proof (Z.rem_bound_abs x 8 H). lia.
Qed.

Lemma rem8_nonneg x : 0 <= x -> 0 <= Z.rem x 8 <= 7.
Proof. intros H. pose proof (Z.rem_bound_pos x 8 H). lia. Qed.

Lemma resolveCombo_nonneg c operand :
  nonneg_registers c -> 0 <= resolveCombo c operand.
Proof.
  intros (HA & HB & HC). unfold resolveCombo.
  small_int operand; simpl; lia.
Qed.

Lemma shift_right_nonneg a n v :
  0 <= a -> shift_right a n = Some v -> 0 <= v.
Proof.
  unfold shift_right. intros Ha H.
  destruct ((0 <=? n) && (n <? 64)); [|discriminate].
  injection H as <-. now apply Z.shiftr_nonneg.
Qed.

(** What a normally returning switch does to the output and to the sign of
    the registers. *)
Lemma dispatch_effect c opcode operand c' :
  dispatch c opcode operand = Normal c' ->
  program_ c' = program_ c /\
  exists emitted,
    output_ c' = output_ c ++ emitted /\
    Forall (fun v => -7 <= v <= 7) emitted /\
    (nonneg_registers c -> 0 <= operand ->
     nonneg_registers c' /\ Forall (fun v => 0 <= v <= 7) emitted).
Proof.
  unfold dispatch, nonneg_registers.
  small_int opcode; simpl;
    repeat match goal with
      | |- context [shift_right ?a ?n] =>
          let E := fresh "E" in
          destruct (shift_right a n) eqn:E; [|discriminate]
      | |- context [if ?b then _ else _] => destruct b
      end;
    intros H; injection H as <-; simpl; (split; [reflexivity|]).
  all: try (exists []; rewrite app_nil_r;
            split; [reflexivity|]; split; [constructor|];
            intros (HA & HB & HC) Hop; split; [|constructor];
            repeat split; try assumption;
            try (eapply shift_right_nonneg; [|eassumption]; assumption);
            try (apply Z.lxor_nonneg; tauto);
            try (apply rem8_nonneg, resolveCombo_nonneg;
                 repeat split; assumption)).
  exists [Z.rem (resolveCombo c operand) 8].
  split; [reflexivity|]. split.
  - constructor; [apply rem8_bounds|constructor].
  - intros Hreg Hop. split; [assumption|].
    constructor; [|constructor].
    apply rem8_nonneg, resolveCombo_nonneg. assumption.
Qed.

Lemma executeInstruction_effect c c' :
  executeInstruction c = Normal c' ->
  program_ c' = program_ c /\
  exists emitted,
    output_ c' = output_ c ++ emitted /\
    Forall (fun v => -7 <= v <= 7) emitted /\
    (valid_program (program_ c) -> nonneg_registers c ->
     nonneg_registers c' /\ Forall (fun v => 0 <= v <= 7) emitted).
Proof.
  unfold executeInstruction.
  destruct (isHalted c).
  - intros H. injection H as <-. split; [reflexivity|].
    exists []. rewrite app_nil_r.
    split; [reflexivity|]. split; [constructor|]. intros _ H. now split.
  - destruct (at_ _ (instructionPointer (state_ c))) as [opcode|];
      [|discriminate].
    destruct (at_ _ _) as [operand|] eqn:E; [|discriminate].
    intros H. apply dispatch_effect in H.
    destruct H as (Hp & emitted & Hout & Hall & Hnn).
    split; [assumption|]. exists emitted.
    split; [assumption|]. split; [assumption|].
    intros Hv Hr. apply Hnn; [assumption|].
    apply at_In in E. unfold valid_program in Hv.
    rewrite Forall_forall in Hv. apply Hv in E. lia.
Qed.

Lemma steps_effect c c' :
  steps c c' ->
  program_ c' = program_ c /\
  exists emitted,
    output_ c' = output_ c ++ emitted /\
    Forall (fun v => -7 <= v <= 7) emitted /\
    (valid_program (program_ c) -> nonneg_registers c ->
     nonneg_registers c' /\ Forall (fun v => 0 <= v <= 7) emitted).
Proof.
  induction 1 as [c|c c' c'' Hstep Hsteps IH].
  - split; [reflexivity|]. exists []. rewrite app_nil_r.
    split; [reflexivity|]. split; [constructor|]. intros _ H. now split.
  - apply executeInstruction_effect in Hstep.
    destruct Hstep as (Hp1 & e1 & Ho1 & Ha1 & Hn1).
    destruct IH as (Hp2 & e2 & Ho2 & Ha2 & Hn2).
    split; [congruence|].
    exists (e1 ++ e2). rewrite Ho2, Ho1, app_assoc.
    split; [reflexivity|]. split; [apply Forall_app; auto|].
    intros Hv Hr. destruct (Hn1 Hv Hr) as (Hr1 & He1).
    rewrite Hp1 in Hn2. destruct (Hn2 Hv Hr1) as (Hr2 & He2).
    split; [assumption|]. apply Forall_app; auto.
Qed.

Lemma run_steps fuel : forall c c',
  run fuel c = Some (Normal c') -> steps c c'.
Proof.
  induction fuel as [|fuel IH]; intros c c'; simpl.
  - destruct (isHalted c); [|discriminate].
    intros H. injection H as <-. constructor.
  - destruct (isHalted c).
    + intros H. injection H as <-. constructor.
    + destruct (executeInstruction c) as [c1| |] eqn:E; try discriminate.
      intros H. eapply steps_next; eauto.
Qed.

(** C4, as the code has it.  Along every run — whatever the Program and the
    initial registers — between a state [c1] and any later state [c2] the
    output only grows at its end: what was appended is still there,
    unchanged, in the same place.  When the Program's entries are in [0, 7]
    and the initial registers are not negative, every value of the output
    lies in [0, 7]. *)
Theorem output_append_only_and_bounded program a b c c1 c2 :
  steps (Computer_new program a b c) c1 ->
  steps c1 c2 ->
  (exists emitted, output_ c2 = output_ c1 ++ emitted) /\
  (valid_program program -> 0 <= a -> 0 <= b -> 0 <= c ->
   Forall (fun v => 0 <= v <= 7) (output_ c2)).
Proof.
  intros H1 H2.
  destruct (steps_effect _ _ H2) as (_ & e2 & Ho2 & _).
  split; [now exists e2|].
  assert (steps (Computer_new program a b c) c2) as H.
  { clear Ho2 e2. induction H1; [assumption|].
    eapply steps_next; eauto. }
  destruct (steps_effect _ _ H) as (_ & e & Ho & _ & Hnn).
  simpl in Ho. rewrite Ho.
  intros Hv Ha Hb Hc. apply Hnn; [assumption|].
  repeat split; assumption.
Qed.

Lemma output_append_only_and_bounded_witness :
  (exists emitted, [0; 1; 2] = [0] ++ emitted) /\
  Forall (fun v => 0 <= v <= 7) [0; 1; 2].
Proof.
  destruct (output_append_only_and_bounded
              (mkProgram [5; 0; 5; 1; 5; 4]) 10 0 0
              (mkComputer (mkProgram [5; 0; 5; 1; 5; 4])
                 (mkComputerState 10 0 0 2) [0])
              (mkComputer (mkProgram [5; 0; 5; 1; 5; 4])
                 (mkComputerState 10 0 0 6) [0; 1; 2]))
    as (Happ & Hnn).
  - eapply steps_next; [reflexivity|apply steps_refl].
  - apply (run_steps 2). reflexivity.
  - split; [exact Happ|].
    apply Hnn; [|lia|lia|lia].
    unfold valid_program. simpl. repeat constructor; lia.
Defined.

(** C4 as stated fails: with register B = -1 the Program [5,5] emits -1. *)
Lemma output_negative_counterexample :
  run 1 (Computer_new (mkProgram [5; 5]) 0 (-1) 0)
  = Some (Normal (mkComputer (mkProgram [5; 5])
                    (mkComputerState 0 (-1) 0 2) [-1])) /\
  ~ (forall program a b c fuel c',
       run fuel (Computer_new program a b c) = Some (Normal c') ->
       Forall (fun v => 0 <= v <= 7) (getOutput c')).
Proof.
  split; [reflexivity|].
  intros H.
  specialize (H (mkProgram [5; 5]) 0 (-1) 0 1%nat
                (mkComputer (mkProgram [5; 5]) (mkComputerState 0 (-1) 0 2)
                   [-1]) eq_refl).
  apply Forall_inv in H. lia.
Qed.

(** * Properties of the parser *)

#[local] Open Scope string_scope.

Example runProgram_example :
  runProgram 100 example_input = Some (Answer "4,6,3,5,6,3,5,2,1,0").
Proof. vm_compute. reflexivity. Qed.

(** *** Conversions ignore what follows the digits *)

Lemma isspace_not_digit ch : isspace ch = true -> isdigit ch = false.
Proof.
  unfold isspace, isdigit.
  destruct (N_of_ascii ch =? 32)%N eqn:E32; simpl.
  - apply N.eqb_eq in E32. rewrite E32. reflexivity.
  - rewrite andb_true_iff, !N.leb_le. intros [_ H].
    apply andb_false_iff. left. apply N.leb_gt. lia.
Qed.

Lemma isspace_not_comma ch : isspace ch = true -> Ascii.eqb ch "," = false.
Proof.
  intros H. destruct (Ascii.eqb ch ",") eqn:E; [|reflexivity].
  apply Ascii.eqb_eq in E. subst. discriminate.
Qed.

Lemma isdigit_not_comma ch : isdigit ch = true -> Ascii.eqb ch "," = false.
Proof.
  intros H. destruct (Ascii.eqb ch ",") eqn:E; [|reflexivity].
  apply Ascii.eqb_eq in E. subst. discriminate.
Qed.

Lemma read_digits_trailing ws :
  all_space ws = true ->
  forall s acc, read_digits acc (s ++ ws) = read_digits acc s.
Proof.
  intros Hws. induction s as [|ch s IH]; intros acc; simpl.
  - destruct ws as [|c w]; [reflexivity|]. simpl in *.
    apply andb_true_iff in Hws. destruct Hws as [Hc _].
    now rewrite (isspace_not_digit _ Hc).
  - destruct (isdigit ch); [apply IH|reflexivity].
Qed.

Lemma skip_space_all_space ws : all_space ws = true -> skip_space ws = EmptyString.
Proof.
  induction ws as [|ch ws IH]; simpl; [reflexivity|].
  intros H. apply andb_true_iff in H. destruct H as [-> H]. auto.
Qed.

Lemma string_to_integer_trailing lo hi s ws :
  all_space ws = true ->
  string_to_integer lo hi (s ++ ws) = string_to_integer lo hi s.
Proof.
  intros Hws. unfold string_to_integer.
  induction s as [|ch s IH]; simpl.
  - now rewrite skip_space_all_space.
  - destruct (isspace ch); [exact IH|].
    unfold read_sign.
    destruct (Ascii.eqb ch "-");
      [now rewrite read_digits_trailing|].
    destruct (Ascii.eqb ch "+");
      [now rewrite read_digits_trailing|].
    change (String ch (s ++ ws)) with (String ch s ++ ws).
    now rewrite read_digits_trailing.
Qed.

(** *** Tokens of the Program line *)

Lemma all_space_no_comma ws : all_space ws = true -> no_comma ws = true.
Proof.
  induction ws as [|ch ws IH]; simpl; [reflexivity|].
  intros H. apply andb_true_iff in H. destruct H as [Hc H].
  now rewrite (isspace_not_comma _ Hc), IH.
Qed.

Lemma all_digits_no_comma s : all_digits s = true -> no_comma s = true.
Proof.
  induction s as [|ch s IH]; simpl; [reflexivity|].
  intros H. apply andb_true_iff in H. destruct H as [Hc H].
  now rewrite (isdigit_not_comma _ Hc), IH.
Qed.

Lemma is_integer_no_comma s : is_integer s = true -> no_comma s = true.
Proof.
  destruct s as [|ch s]; simpl; [discriminate|].
  destruct (Ascii.eqb ch "-") eqn:E.
  - apply Ascii.eqb_eq in E. subst ch. simpl.
    destruct s; [discriminate|]. apply all_digits_no_comma.
  - intros H. apply andb_true_iff in H. destruct H as [Hc H].
    now rewrite (isdigit_not_comma _ Hc), all_digits_no_comma.
Qed.

Lemma is_integer_nonempty s : is_integer s = true -> s <> EmptyString.
Proof. destruct s; [discriminate|congruence]. Qed.

Lemma append_assoc (s1 s2 s3 : string) : (s1 ++ s2) ++ s3 = s1 ++ (s2 ++ s3).
Proof. induction s1 as [|ch s1 IH]; simpl; congruence. Qed.

Lemma append_nil_r (s : string) : s ++ EmptyString = s.
Proof. induction s as [|ch s IH]; simpl; congruence. Qed.

Lemma getline_loop_no_comma t :
  no_comma t = true ->
  forall token rest,
    getline_loop token (t ++ rest) = getline_loop (token ++ t) rest.
Proof.
  induction t as [|ch t IH]; simpl; intros H token rest.
  - now rewrite append_nil_r.
  - apply andb_true_iff in H. destruct H as [Hc H].
    apply negb_true_iff in Hc. rewrite Hc, IH by assumption.
    rewrite append_assoc. reflexivity.
Qed.

Lemma getline_loop_last t :
  no_comma t = true -> t <> EmptyString -> getline_loop EmptyString t = [t].
Proof.
  intros H Hne.
  rewrite <- (append_nil_r t) at 1.
  rewrite getline_loop_no_comma by assumption. simpl.
  destruct t; congruence.
Qed.

Lemma getline_loop_comma t rest :
  no_comma t = true ->
  getline_loop EmptyString (t ++ "," ++ rest) = t :: getline_loop EmptyString rest.
Proof.
  intros H. rewrite getline_loop_no_comma by assumption. reflexivity.
Qed.

Lemma no_comma_app s1 s2 :
  no_comma s1 = true -> no_comma s2 = true -> no_comma (s1 ++ s2) = true.
Proof.
  induction s1 as [|ch s1 IH]; simpl; [auto|].
  intros H H2. apply andb_true_iff in H. destruct H as [-> H]. simpl. auto.
Qed.

Lemma push_tokens_trailing ws :
  all_space ws = true ->
  forall tokens, tokens <> [] ->
    Forall (fun token => is_integer token = true) tokens ->
    forall r,
      push_tokens r (getline_loop EmptyString (comma_list tokens ++ ws))
      = push_tokens r (getline_loop EmptyString (comma_list tokens)).
Proof.
  intros Hws. induction tokens as [|t tokens IH]; [congruence|].
  intros _ Hall r. inversion Hall as [|t0 l0 Ht Hrest]; subst.
  pose proof (is_integer_no_comma _ Ht) as Hnc.
  pose proof (is_integer_nonempty _ Ht) as Hne.
  destruct tokens as [|t' tokens].
  - simpl comma_list.
    rewrite !getline_loop_last; try assumption.
    + unfold push_tokens, stoi.
      now rewrite string_to_integer_trailing.
    + apply no_comma_app; [assumption|now apply all_space_no_comma].
    + destruct t; simpl; congruence.
  - change (comma_list (t :: t' :: tokens))
      with (t ++ "," ++ comma_list (t' :: tokens)).
    rewrite append_assoc.
    change (("," ++ comma_list (t' :: tokens)) ++ ws)
      with ("," ++ (comma_list (t' :: tokens) ++ ws)).
    rewrite !getline_loop_comma by assumption.
    simpl push_tokens. destruct (stoi t) as [v|e]; simpl; [|reflexivity].
    apply IH; [discriminate|assumption].
Qed.

(** *** Lines followed by white space *)

Lemma starts_with_leading_space c rest p ch :
  isspace c = true -> isspace ch = false ->
  starts_with (String c rest) (String ch p) = false.
Proof.
  unfold starts_with. intros Hc Hch. cbn [String.prefix].
  destruct (ascii_dec ch c); [congruence|reflexivity].
Qed.

Lemma starts_with_space ws p ch :
  all_space ws = true -> isspace ch = false ->
  starts_with ws (String ch p) = false.
Proof.
  destruct ws as [|c ws]; [reflexivity|]. simpl.
  intros H Hch. apply andb_true_iff in H. destruct H as [Hc _].
  now apply starts_with_leading_space.
Qed.

Lemma parse_line_leading_space r c rest :
  isspace c = true -> parse_line r (String c rest) = Returns r.
Proof.
  intros H. unfold parse_line.
  now rewrite !starts_with_leading_space by (assumption || reflexivity).
Qed.

Lemma parse_line_space ws r :
  all_space ws = true -> parse_line r ws = Returns r.
Proof.
  intros H. unfold parse_line.
  now rewrite !starts_with_space by (assumption || reflexivity).
Qed.

Lemma parse_line_register x n r :
  parse_line r (register_prefix x ++ " " ++ n)
  = (v <- stoll (" " ++ n) ;;
     Returns (match x with
              | RegisterA => ParsedInput.set_A r v
              | RegisterB => ParsedInput.set_B r v
              | RegisterC => ParsedInput.set_C r v
              end)).
Proof. destruct x; reflexivity. Qed.

Lemma parse_line_program s r :
  parse_line r ("Program: " ++ s) = push_tokens r (getline_loop EmptyString s).
Proof. reflexivity. Qed.

Lemma parse_line_trailing line ws r :
  wf_line line -> all_space ws = true ->
  parse_line r (line ++ ws) = parse_line r line.
Proof.
  intros Hwf Hws. destruct Hwf as [|x n Hn|tokens Hne Hall].
  - simpl. now rewrite !parse_line_space.
  - rewrite !append_assoc, !parse_line_register.
    unfold stoll. rewrite <- append_assoc.
    now rewrite string_to_integer_trailing.
  - rewrite append_assoc, !parse_line_program.
    now apply push_tokens_trailing.
Qed.

Lemma parse_lines_trailing input input' :
  Forall wf_line input ->
  Forall2 trailing_space input input' ->
  forall r, parse_lines r input' = parse_lines r input.
Proof.
  intros Hwf Hpad. induction Hpad as [|line line' input input' Hl Hrest IH];
    intros r; [reflexivity|].
  inversion Hwf as [|l0 i0 Hline Hwf']; subst.
  destruct Hl as (ws & Hws & ->). simpl.
  rewrite parse_line_trailing by assumption.
  destruct (parse_line r line); simpl; auto.
Qed.

Lemma example_input_wf : Forall wf_line example_input.
Proof.
  unfold example_input. repeat constructor.
  - exact (wf_register RegisterA "729" eq_refl).
  - exact (wf_register RegisterB "0" eq_refl).
  - exact (wf_register RegisterC "0" eq_refl).
  - apply (wf_program ["0"; "1"; "5"; "4"; "3"; "0"]);
      [discriminate|repeat constructor].
Defined.

(** C5, as the code has it.  On a well-formed machine description, white
    space at the end of the lines is insignificant: two inputs that differ
    only in white space after each line parse to the same result, registers
    and Program.  White space before a line is significant: a line that
    begins with a white-space character matches none of the four prefixes
    and is skipped. *)
Theorem parseInput_trailing_space input input' :
  Forall wf_line input ->
  Forall2 trailing_space input input' ->
  parseInput input' = parseInput input /\
  (forall r ch rest,
     isspace ch = true -> parse_line r (String ch rest) = Returns r).
Proof.
  intros Hwf Hpad. split.
  - unfold parseInput. now apply parse_lines_trailing.
  - intros r ch rest Hch. now apply parse_line_leading_space.
Qed.

Lemma input_trailing_space_padded :
  Forall2 trailing_space example_input input_trailing_space.
Proof.
  unfold example_input, input_trailing_space. repeat constructor.
  - exists "  ". split; reflexivity.
  - exists " ". split; reflexivity.
  - exists EmptyString. split; reflexivity.
  - exists "   ". split; reflexivity.
  - exists " ". split; reflexivity.
Defined.

Lemma parseInput_trailing_space_witness :
  parseInput input_trailing_space = parseInput example_input /\
  parse_line ParsedInput.default " Register A: 729"
  = Returns ParsedInput.default.
Proof.
  destruct (parseInput_trailing_space example_input input_trailing_space
              example_input_wf input_trailing_space_padded) as (Heq & Hskip).
  split; [exact Heq|].
  apply Hskip. reflexivity.
Defined.

(** C5 as stated fails: one space before the first line of a well-formed
    description and register A is no longer assigned. *)
Lemma parseInput_leading_space_counterexample :
  Forall wf_line example_input /\
  Forall2 surrounding_space example_input input_leading_space /\
  parseInput example_input
  = Returns (ParsedInput.mk (Some 729) (Some 0) (Some 0) [0; 1; 5; 4; 3; 0]) /\
  parseInput input_leading_space
  = Returns (ParsedInput.mk None (Some 0) (Some 0) [0; 1; 5; 4; 3; 0]) /\
  parseInput input_leading_space <> parseInput example_input.
Proof.
  split; [exact example_input_wf|]. split.
  - unfold example_input, input_leading_space. repeat constructor.
    + exists " ", EmptyString. repeat split; reflexivity.
    + exists EmptyString, EmptyString. repeat split; reflexivity.
    + exists EmptyString, EmptyString. repeat split; reflexivity.
    + exists EmptyString, EmptyString. repeat split; reflexivity.
    + exists EmptyString, EmptyString. repeat split; reflexivity.
  - split; [reflexivity|]. split; [reflexivity|]. discriminate.
Qed.

(** *** Lines that are absent *)

Lemma push_tokens_fields tokens : forall r r',
  push_tokens r tokens = Returns r' ->
  ParsedInput.A r' = ParsedInput.A r /\
  ParsedInput.B r' = ParsedInput.B r /\
  ParsedInput.C r' = ParsedInput.C r.
Proof.
  induction tokens as [|t tokens IH]; simpl; intros r r' H.
  - injection H as <-. auto.
  - destruct (stoi t) as [v|e]; simpl in H; [|discriminate].
    apply IH in H. exact H.
Qed.

Lemma push_tokens_raises tokens e : forall r,
  push_tokens r tokens = Raises e ->
  forall r0, push_tokens r0 tokens = Raises e.
Proof.
  induction tokens as [|t tokens IH]; simpl; intros r H r0; [discriminate|].
  destruct (stoi t) as [v|e']; simpl in *; [eauto|assumption].
Qed.

Lemma parse_line_field x r line r' :
  starts_with line (register_prefix x) = false ->
  parse_line r line = Returns r' ->
  register_field x r' = register_field x r.
Proof.
  unfold parse_line. intros Hx.
  destruct (starts_with line "Register A:") eqn:EA;
    [|destruct (starts_with line "Register B:") eqn:EB;
      [|destruct (starts_with line "Register C:") eqn:EC;
        [|destruct (starts_with line "Program:")]]].
  1-3: destruct (substr line 11) as [s|]; simpl; [|discriminate];
       destruct (stoll s) as [v|]; simpl; [|discriminate];
       intros H; injection H as <-;
       destruct x; simpl in *; congruence.
  - destruct (substr line 9) as [s|]; simpl; [|discriminate].
    intros H. apply push_tokens_fields in H.
    destruct x; simpl; tauto.
  - intros H. injection H as <-. reflexivity.
Qed.

Lemma parse_line_raises r line e :
  parse_line r line = Raises e -> forall r0, parse_line r0 line = Raises e.
Proof.
  unfold parse_line. intros H r0.
  destruct (starts_with line "Register A:");
    [|destruct (starts_with line "Register B:");
      [|destruct (starts_with line "Register C:");
        [|destruct (starts_with line "Program:")]]].
  1-3: destruct (substr line 11) as [s|]; simpl in *; [|assumption];
       destruct (stoll s) as [v|]; simpl in *; [discriminate|assumption].
  - destruct (substr line 9) as [s|]; simpl in *; [|assumption].
    eapply push_tokens_raises; eassumption.
  - discriminate.
Qed.

Lemma parse_lines_missing x input :
  (forall line, In line input ->
                starts_with line (register_prefix x) = false) ->
  forall r,
    (exists r', parse_lines r input = Returns r' /\
                register_field x r' = register_field x r) \/
    (exists e line, parse_lines r input = Raises e /\ In line input /\
                    forall r0, parse_line r0 line = Raises e).
Proof.
  induction input as [|line input IH]; intros Hno r; simpl.
  - left. now exists r.
  - destruct (parse_line r line) as [r1|e] eqn:E; simpl.
    + destruct (IH (fun l Hl => Hno l (or_intror Hl)) r1)
        as [(r' & Hr' & Hf)|(e & l & He & Hin & Hl)].
      * left. exists r'. split; [assumption|].
        rewrite Hf. eapply parse_line_field; [|eassumption].
        apply Hno. now left.
      * right. exists e, l. auto.
    + right. exists e, line. split; [reflexivity|]. split; [now left|].
      now apply parse_line_raises with (r := r).
Qed.

(** C3, as the code has it.  [parseInput] does not check which lines are
    present.  On an input without a "Register X:" line (X any of A, B, C) it
    returns normally with register X never assigned, and [runProgram] goes
    on to construct the Computer from that result, reading the unassigned
    register; the only way it throws is a line that is present and whose own
    conversion throws ([std::invalid_argument] or [std::out_of_range] of
    [stoll], [stoi] or [substr]). *)
Theorem parseInput_missing_register x input :
  (forall line, In line input ->
                starts_with line (register_prefix x) = false) ->
  (exists r, parseInput input = Returns r /\
             register_field x r = None /\
             forall fuel, runProgram fuel input = Some UndefinedBehaviour) \/
  (exists e line, parseInput input = Raises e /\ In line input /\
                  forall r0, parse_line r0 line = Raises e).
Proof.
  intros Hno. unfold parseInput.
  destruct (parse_lines_missing x input Hno ParsedInput.default)
    as [(r & Hr & Hf)|H]; [left|right; exact H].
  exists r. split; [assumption|].
  assert (register_field x r = None) as Hnone
    by (rewrite Hf; destruct x; reflexivity).
  split; [assumption|].
  intros fuel. unfold runProgram, parseInput. rewrite Hr.
  destruct x; simpl in Hnone; rewrite Hnone;
    repeat match goal with
      | |- context [match ?o with Some _ => _ | None => _ end] =>
          destruct o
      end; reflexivity.
Qed.

Lemma input_without_B_no_line line :
  In line input_without_B -> starts_with line "Register B:" = false.
Proof.
  unfold input_without_B. simpl.
  intros [<-|[<-|[<-|[<-|[]]]]]; reflexivity.
Defined.

Lemma parseInput_missing_register_witness :
  (exists r, parseInput input_without_B = Returns r /\
             register_field RegisterB r = None /\
             forall fuel,
               runProgram fuel input_without_B = Some UndefinedBehaviour) \/
  (exists e line, parseInput input_without_B = Raises e /\
                  In line input_without_B /\
                  forall r0, parse_line r0 line = Raises e).
Proof.
  apply (parseInput_missing_register RegisterB input_without_B).
  exact input_without_B_no_line.
Defined.

(** C3 as stated fails: without its "Register B:" line the example input is
    parsed without any error, and the result has no value for B. *)
Lemma parseInput_missing_B_counterexample :
  (forall line, In line input_without_B ->
                starts_with line "Register B:" = false) /\
  parseInput input_without_B
  = Returns (ParsedInput.mk (Some 729) None (Some 0) [0; 1; 5; 4; 3; 0]) /\
  (forall e, parseInput input_without_B <> Raises e) /\
  (forall fuel e, runProgram fuel input_without_B <> Some (Exception e)).
Proof.
  split; [exact input_without_B_no_line|].
  split; [reflexivity|]. split; discriminate.
Qed.

(** * Further properties of the machine *)

#[local] Close Scope string_scope.

Lemma dispatch_not_throws c opcode operand e c' :
  dispatch c opcode operand <> Throws e c'.
Proof.
  unfold dispatch.
  small_int opcode; simpl;
    repeat match goal with
      | |- context [shift_right ?a ?n] => destruct (shift_right a n)
      | |- context [if ?b then _ else _] => destruct b
      end; discriminate.
Qed.

Lemma step_throws_iff c e c' :
  size_ok (program_ c) ->
  executeInstruction c = Throws e c' <->
  (instructionPointer (state_ c) + 1 = size (instructions (program_ c)))%N /\
  e = std_out_of_range /\ c' = c.
Proof.
  intros Hs. split.
  - unfold executeInstruction.
    destruct (isHalted c) eqn:Hh; [discriminate|].
    apply isHalted_false in Hh.
    destruct (at_Some _ _ Hh) as [opcode ->].
    rewrite pointer_plus_small by (try assumption; lia).
    destruct (at_ _ (instructionPointer (state_ c) + 1)) as [operand|] eqn:E.
    + intros H. now apply dispatch_not_throws in H.
    + intros H. injection H as <- <-.
      split; [|split; reflexivity].
      unfold at_ in E. apply nth_error_None in E. unfold size in *. lia.
  - intros (Hp & -> & ->).
    unfold executeInstruction.
    rewrite (proj2 (isHalted_false c)) by lia.
    destruct (at_Some (instructions (program_ c))
                (instructionPointer (state_ c))) as [opcode ->]; [lia|].
    rewrite pointer_plus_small by (try assumption; lia).
    now rewrite at_None by lia.
Qed.

(** X1. A step throws exactly when the instruction pointer is on the last
    entry of the Program: the exception is then [std::out_of_range] and the
    computer is as it was.  No other state and no instruction throws. *)
Theorem executeInstruction_throws_iff c e c' :
  size_ok (program_ c) ->
  executeInstruction c = Throws e c' <->
  (instructionPointer (state_ c) + 1 = size (instructions (program_ c)))%N /\
  e = std_out_of_range /\ c' = c.
Proof. exact (step_throws_iff c e c'). Qed.

Lemma executeInstruction_throws_iff_witness :
  executeInstruction
    (mkComputer (mkProgram [0; 1; 5]) (mkComputerState 8 0 0 2) [])
  = Throws std_out_of_range
      (mkComputer (mkProgram [0; 1; 5]) (mkComputerState 8 0 0 2) []).
Proof.
  apply (executeInstruction_throws_iff
           (mkComputer (mkProgram [0; 1; 5]) (mkComputerState 8 0 0 2) [])).
  - unfold size_ok. vm_compute. discriminate.
  - repeat split; reflexivity.
Defined.

Lemma shift_right_None a n : shift_right a n = None <-> ~ 0 <= n < 64.
Proof.
  unfold shift_right.
  destruct (0 <=? n) eqn:E1; destruct (n <? 64) eqn:E2; simpl;
    try apply Z.leb_le in E1; try apply Z.leb_gt in E1;
    try apply Z.ltb_lt in E2; try apply Z.ltb_ge in E2;
    split; intros H; try discriminate; try reflexivity; lia.
Qed.

Lemma dispatch_undefined_iff c opcode operand :
  dispatch c opcode operand = Undefined <->
  (opcode = 0 \/ opcode = 6 \/ opcode = 7) /\
  ~ 0 <= resolveCombo c operand < 64.
Proof.
  unfold dispatch.
  small_int opcode; simpl;
    repeat match goal with
      | |- context [shift_right ?a ?n] =>
          let E := fresh "E" in
          destruct (shift_right a n) eqn:E;
          [assert (~ shift_right a n = None) as E' by congruence;
           rewrite shift_right_None in E'
          |apply shift_right_None in E]
      | |- context [if ?b then _ else _] => destruct b
      end;
    split; try discriminate; try tauto;
    try (intros [[H|[H|H]] _]; discriminate H);
    try (intros [[H|[H|H]] _]; lia).
Qed.

(** X2. A step has undefined behaviour exactly when the instruction at the
    pointer is one of the three shifts (opcodes 0, 6, 7) and its combo
    operand resolves to a value outside [0, 63] — a shift of a 64-bit
    register by a negative amount or by 64 or more. *)
Theorem executeInstruction_undefined_iff c :
  size_ok (program_ c) ->
  executeInstruction c = Undefined <->
  exists opcode operand,
    at_ (instructions (program_ c)) (instructionPointer (state_ c))
    = Some opcode /\
    at_ (instructions (program_ c)) (instructionPointer (state_ c) + 1)
    = Some operand /\
    (opcode = 0 \/ opcode = 6 \/ opcode = 7) /\
    ~ 0 <= resolveCombo c operand < 64.
Proof.
  intros Hs. unfold executeInstruction. split.
  - destruct (isHalted c) eqn:Hh; [discriminate|].
    apply isHalted_false in Hh.
    rewrite pointer_plus_small by (try assumption; lia).
    destruct (at_ _ (instructionPointer (state_ c))) as [opcode|];
      [|discriminate].
    destruct (at_ _ (instructionPointer (state_ c) + 1)) as [operand|];
      [|discriminate].
    intros H. apply dispatch_undefined_iff in H.
    exists opcode, operand. tauto.
  - intros (opcode & operand & Hop & Hoperand & Hcase).
    pose proof (at_lt _ _ _ Hop) as Hlt.
    rewrite (proj2 (isHalted_false c)) by assumption.
    rewrite pointer_plus_small by (try assumption; lia).
    rewrite Hop, Hoperand. now apply dispatch_undefined_iff.
Qed.

Lemma executeInstruction_undefined_iff_witness :
  executeInstruction
    (mkComputer (mkProgram [0; 4]) (mkComputerState 64 0 0 0) [])
  = Undefined.
Proof.
  apply (executeInstruction_undefined_iff
           (mkComputer (mkProgram [0; 4]) (mkComputerState 64 0 0 0) [])).
  - unfold size_ok. vm_compute. discriminate.
  - exists 0, 4. repeat split; try reflexivity.
    + left. reflexivity.
    + simpl. lia.
Defined.

(** *** Where the pointer goes *)

Lemma executeInstruction_program c c' :
  executeInstruction c = Normal c' -> program_ c' = program_ c.
Proof. intros H. now apply executeInstruction_effect in H. Qed.

(** After a step of a running computer the pointer is two further, or it is
    the operand of a jump that was taken. *)
Lemma dispatch_pointer c opcode operand c' :
  dispatch c opcode operand = Normal c' ->
  instructionPointer (state_ c')
  = ((instructionPointer (state_ c) + 2) mod size_t_modulus)%N \/
  (opcode = 3 /\ A (state_ c) <> 0 /\
   instructionPointer (state_ c') = size_t_of_int operand).
Proof.
  unfold dispatch.
  small_int opcode; simpl;
    repeat match goal with
      | |- context [shift_right ?a ?n] =>
          destruct (shift_right a n); [|discriminate]
      end;
    try (intros H; injection H as <-; left; reflexivity).
  destruct (A (state_ c) =? 0) eqn:E; intros H; injection H as <-.
  - left. reflexivity.
  - right. apply Z.eqb_neq in E. repeat split; assumption.
Qed.

Lemma even_mod_modulus n :
  N.even (n mod size_t_modulus) = N.even n.
Proof.
  rewrite (N.div_mod' n size_t_modulus) at 2.
  rewrite N.add_comm.
  replace (size_t_modulus * (n / size_t_modulus))%N
    with (2 * (9223372036854775808 * (n / size_t_modulus)))%N
    by (rewrite size_t_modulus_eq; lia).
  now rewrite N.even_add_mul_2.
Qed.

Lemma mod_modulus_lt n : (n mod size_t_modulus < size_t_modulus)%N.
Proof. apply N.mod_lt. rewrite size_t_modulus_eq. discriminate. Qed.

Lemma size_t_of_int_lt x : (size_t_of_int x < size_t_modulus)%N.
Proof.
  unfold size_t_of_int. rewrite size_t_modulus_eq.
  change (Z.of_N 18446744073709551616) with 18446744073709551616.
  pose proof (Z.mod_pos_bound x 18446744073709551616 eq_refl).
  lia.
Qed.

Lemma even_to_N m : 0 <= m -> N.even (Z.to_N m) = Z.even m.
Proof. destruct m as [|q|q]; [reflexivity| |lia]. now destruct q. Qed.

Lemma size_t_of_int_even x : N.even (size_t_of_int x) = Z.even x.
Proof.
  unfold size_t_of_int. rewrite size_t_modulus_eq.
  change (Z.of_N 18446744073709551616) with 18446744073709551616.
  pose proof (Z.mod_pos_bound x 18446744073709551616 eq_refl) as Hb.
  rewrite even_to_N by lia.
  rewrite (Z.div_mod x 18446744073709551616) at 2 by lia.
  rewrite Z.add_comm.
  replace (18446744073709551616 * (x / 18446744073709551616))
    with (2 * (9223372036854775808 * (x / 18446744073709551616)))
    by lia.
  now rewrite Z.even_add_mul_2.
Qed.

(** X3. [run] returns normally only in a halted state, with the Program it
    was given; and when it ends with an exception, the exception is the
    [std::out_of_range] of a pointer left on the last entry. *)
Theorem run_postcondition fuel : forall c,
  size_ok (program_ c) ->
  (forall c', run fuel c = Some (Normal c') ->
     isHalted c' = true /\ program_ c' = program_ c) /\
  (forall e c', run fuel c = Some (Throws e c') ->
     e = std_out_of_range /\ isHalted c' = false /\
     program_ c' = program_ c /\
     (instructionPointer (state_ c') + 1
      = size (instructions (program_ c')))%N).
Proof.
  induction fuel as [|fuel IH]; intros c Hs; simpl.
  - destruct (isHalted c) eqn:Hh; split; intros; try discriminate.
    match goal with H : Some _ = Some _ |- _ => injection H as <- end.
    now split.
  - destruct (isHalted c) eqn:Hh.
    + split; intros; try discriminate.
      match goal with H : Some _ = Some _ |- _ => injection H as <- end.
      now split.
    + destruct (executeInstruction c) as [c1|e1 c1|] eqn:E.
      * pose proof (executeInstruction_program _ _ E) as Hp.
        assert (size_ok (program_ c1)) as Hs1 by now rewrite Hp.
        destruct (IH c1 Hs1) as (IH1 & IH2). rewrite <- Hp.
        split; assumption.
      * apply step_throws_iff in E; [|assumption].
        destruct E as (Hp & -> & ->).
        split; intros; try discriminate.
        match goal with H : Some _ = Some _ |- _ => injection H as <- <- end.
        repeat split; assumption.
      * split; intros; discriminate.
Qed.

Lemma run_postcondition_witness :
  (isHalted (mkComputer (mkProgram [0; 1; 5; 4; 3; 0])
               (mkComputerState 0 0 0 6) [4; 2; 1; 0]) = true /\
   program_ (mkComputer (mkProgram [0; 1; 5; 4; 3; 0])
               (mkComputerState 0 0 0 6) [4; 2; 1; 0])
   = mkProgram [0; 1; 5; 4; 3; 0]) /\
  (std_out_of_range = std_out_of_range /\
   isHalted (mkComputer (mkProgram [5; 4; 3]) (mkComputerState 9 0 0 2) [1])
   = false /\
   program_ (mkComputer (mkProgram [5; 4; 3]) (mkComputerState 9 0 0 2) [1])
   = mkProgram [5; 4; 3] /\
   (2 + 1)%N = size [5; 4; 3]).
Proof.
  split.
  - apply (proj1 (run_postcondition 20
                    (Computer_new (mkProgram [0; 1; 5; 4; 3; 0]) 9 0 0)
                    ltac:(unfold size_ok; vm_compute; discriminate))).
    reflexivity.
  - apply (proj2 (run_postcondition 20
                    (Computer_new (mkProgram [5; 4; 3]) 9 0 0)
                    ltac:(unfold size_ok; vm_compute; discriminate))
             std_out_of_range
             (mkComputer (mkProgram [5; 4; 3]) (mkComputerState 9 0 0 2) [1])).
    reflexivity.
Defined.

(** The pointer of a computer started at 0 stays a [size_t], and stays even
    when the jumps are aligned. *)
Lemma steps_aligned program a b c c1 :
  aligned_jumps program ->
  steps (Computer_new program a b c) c1 ->
  program_ c1 = program /\
  N.even (instructionPointer (state_ c1)) = true /\
  (instructionPointer (state_ c1) < size_t_modulus)%N.
Proof.
  intros Hj H.
  remember (Computer_new program a b c) as c0 eqn:E0.
  assert (program_ c0 = program /\
          N.even (instructionPointer (state_ c0)) = true /\
          (instructionPointer (state_ c0) < size_t_modulus)%N) as Hinv
    by (subst c0; repeat split).
  clear E0. induction H as [c0|c0 c' c'' Hstep Hsteps IH]; [assumption|].
  apply IH. clear IH Hsteps.
  destruct Hinv as (Hp & Hev & Hlt).
  split; [now rewrite (executeInstruction_program _ _ Hstep)|].
  revert Hstep. unfold executeInstruction.
  destruct (isHalted c0); [intros H; injection H as <-; now split|].
  destruct (at_ _ (instructionPointer (state_ c0))) as [opcode|] eqn:Eop;
    [|discriminate].
  assert ((instructionPointer (state_ c0) + 1) mod size_t_modulus
          = instructionPointer (state_ c0) + 1)%N as Hmod.
  { apply N.mod_small. rewrite size_t_modulus_eq in *.
    assert (instructionPointer (state_ c0) <> 18446744073709551615)%N
      by (intros Heq; rewrite Heq in Hev; discriminate).
    lia. }
  rewrite Hmod.
  destruct (at_ _ (instructionPointer (state_ c0) + 1)) as [operand|]
    eqn:Eoperand; [|discriminate].
  intros H. apply dispatch_pointer in H.
  destruct H as [-> | (-> & _ & ->)].
  - split; [|apply mod_modulus_lt].
    rewrite even_mod_modulus, N.even_add, Hev. reflexivity.
  - split; [|apply size_t_of_int_lt].
    rewrite size_t_of_int_even. rewrite Hp in *. eapply Hj; eassumption.
Qed.

(** X4. On a Program of even length whose jump instructions all have an even
    operand, a computer started at pointer 0 never throws: the pointer stays
    even, so an opcode is always followed by its operand. *)
Theorem aligned_program_never_throws program a b c c1 e c2 :
  N.even (size (instructions program)) = true ->
  aligned_jumps program ->
  steps (Computer_new program a b c) c1 ->
  executeInstruction c1 <> Throws e c2.
Proof.
  intros Hsize Hj H.
  destruct (steps_aligned _ _ _ _ _ Hj H) as (Hp & Hev & Hlt).
  unfold executeInstruction.
  destruct (isHalted c1) eqn:Hh; [discriminate|].
  apply isHalted_false in Hh. rewrite Hp in *.
  destruct (at_Some _ _ Hh) as [opcode ->].
  assert (instructionPointer (state_ c1) + 1 <> size (instructions program))%N
    as Hne.
  { intros Heq. rewrite <- Heq, N.even_add, Hev in Hsize. discriminate. }
  assert ((instructionPointer (state_ c1) + 1) mod size_t_modulus
          = instructionPointer (state_ c1) + 1)%N as Hmod.
  { apply N.mod_small. rewrite size_t_modulus_eq in *.
    assert (instructionPointer (state_ c1) <> 18446744073709551615)%N
      by (intros Heq; rewrite Heq in Hev; discriminate).
    lia. }
  rewrite Hmod.
  destruct (at_Some (instructions program)
              (instructionPointer (state_ c1) + 1)) as [operand ->]; [lia|].
  apply dispatch_not_throws.
Qed.

Lemma aligned_jumps_example : aligned_jumps (mkProgram [0; 1; 5; 4; 3; 0]).
Proof.
  intros i operand Hev Hop Hoperand.
  pose proof (at_lt _ _ _ Hoperand) as Hlt. unfold size in Hlt. simpl in Hlt.
  assert (i = 0 \/ i = 1 \/ i = 2 \/ i = 3 \/ i = 4)%N as Hi by lia.
  destruct Hi as [-> | [-> | [-> | [-> | ->]]]]; try discriminate.
  injection Hoperand as <-. reflexivity.
Defined.

Lemma aligned_program_never_throws_witness :
  executeInstruction
    (mkComputer (mkProgram [0; 1; 5; 4; 3; 0]) (mkComputerState 4 0 0 2) [])
  <> Throws std_out_of_range
       (mkComputer (mkProgram [0; 1; 5; 4; 3; 0]) (mkComputerState 4 0 0 2) []).
Proof.
  apply (aligned_program_never_throws (mkProgram [0; 1; 5; 4; 3; 0]) 9 0 0).
  - reflexivity.
  - exact aligned_jumps_example.
  - eapply steps_next; [reflexivity|apply steps_refl].
Defined.

(** *** Fetch and execute *)

Lemma executeInstruction_fetch c opcode operand :
  size_ok (program_ c) ->
  at_ (instructions (program_ c)) (instructionPointer (state_ c))
  = Some opcode ->
  at_ (instructions (program_ c)) (instructionPointer (state_ c) + 1)
  = Some operand ->
  executeInstruction c = dispatch c opcode operand.
Proof.
  intros Hs Hop Hoperand.
  pose proof (at_lt _ _ _ Hop) as Hlt.
  unfold executeInstruction.
  rewrite (proj2 (isHalted_false c)) by assumption.
  rewrite Hop, pointer_plus_small by (try assumption; lia).
  now rewrite Hoperand.
Qed.

Lemma executeInstruction_running c c1 :
  size_ok (program_ c) ->
  isHalted c = false ->
  executeInstruction c = Normal c1 ->
  exists opcode operand,
    at_ (instructions (program_ c)) (instructionPointer (state_ c))
    = Some opcode /\
    at_ (instructions (program_ c)) (instructionPointer (state_ c) + 1)
    = Some operand /\
    dispatch c opcode operand = Normal c1.
Proof.
  intros Hs Hh. unfold executeInstruction. rewrite Hh.
  apply isHalted_false in Hh.
  rewrite pointer_plus_small by (try assumption; lia).
  destruct (at_ _ (instructionPointer (state_ c))) as [opcode|];
    [|discriminate].
  destruct (at_ _ (instructionPointer (state_ c) + 1)) as [operand|];
    [|discriminate].
  intros H. now exists opcode, operand.
Qed.

Lemma run_jump_free fuel : forall c,
  size_ok (program_ c) ->
  jump_free (program_ c) ->
  N.even (instructionPointer (state_ c)) = true ->
  (size (instructions (program_ c))
   <= instructionPointer (state_ c) + 2 * N.of_nat fuel)%N ->
  run fuel c <> None.
Proof.
  induction fuel as [|fuel IH]; intros c Hs Hj Hev Hle; simpl.
  - rewrite (proj2 (isHalted_true c)) by lia. discriminate.
  - destruct (isHalted c) eqn:Hh; [discriminate|].
    destruct (executeInstruction c) as [c1| |] eqn:E; try discriminate.
    pose proof (executeInstruction_program _ _ E) as Hp.
    destruct (executeInstruction_running _ _ Hs Hh E)
      as (opcode & operand & Hop & Hoperand & Hd).
    apply isHalted_false in Hh.
    apply dispatch_pointer in Hd.
    destruct Hd as [Hip | (-> & _)]; [|now apply Hj in Hop].
    rewrite pointer_plus_small in Hip by (try assumption; lia).
    apply IH; rewrite ?Hp, ?Hip; try assumption.
    + now rewrite N.even_add, Hev.
    + lia.
Qed.

(** X5. A Program without a jump instruction at an even index always comes
    to an end: [run] started at pointer 0 is over (halted, or stopped by a
    truncated last instruction or an undefined shift) after at most one step
    per pair of entries. *)
Theorem jump_free_terminates program a b c fuel :
  size_ok program ->
  jump_free program ->
  (List.length (instructions program) <= 2 * fuel)%nat ->
  run fuel (Computer_new program a b c) <> None.
Proof.
  intros Hs Hj Hlen. apply run_jump_free; try assumption.
  - reflexivity.
  - unfold size, Computer_new.
    cbn [program_ state_ instructionPointer instructions]. lia.
Qed.

Lemma jump_free_example : jump_free (mkProgram [5; 3; 2; 6; 5; 5]).
Proof.
  intros i Hev Hop.
  pose proof (at_lt _ _ _ Hop) as Hlt. unfold size in Hlt. simpl in Hlt.
  assert (i = 0 \/ i = 1 \/ i = 2 \/ i = 3 \/ i = 4 \/ i = 5)%N as Hi by lia.
  destruct Hi as [-> | [-> | [-> | [-> | [-> | ->]]]]]; discriminate.
Defined.

Lemma jump_free_terminates_witness :
  run 3 (Computer_new (mkProgram [5; 3; 2; 6; 5; 5]) 1 2 12) <> None.
Proof.
  apply (jump_free_terminates (mkProgram [5; 3; 2; 6; 5; 5]) 1 2 12 3).
  - unfold size_ok. vm_compute. discriminate.
  - exact jump_free_example.
  - simpl. lia.
Defined.

Lemma advance_small c :
  size_ok (program_ c) ->
  (instructionPointer (state_ c) < size (instructions (program_ c)))%N ->
  advance c
  = mkComputer (program_ c)
      (mkComputerState (A (state_ c)) (B (state_ c)) (C (state_ c))
         (instructionPointer (state_ c) + 2))
      (output_ c).
Proof.
  intros Hs Hlt. unfold advance, set_instructionPointer.
  now rewrite pointer_plus_small by (try assumption; lia).
Qed.

(** X6. adv (opcode 0) divides: when the combo operand resolves to a shift
    amount [n] in [0, 63], the step replaces A by the quotient of A by 2^n
    rounded toward minus infinity (the truncated quotient when A is not
    negative), advances the pointer by 2 and touches nothing else. *)
Theorem executeInstruction_adv c operand :
  size_ok (program_ c) ->
  at_ (instructions (program_ c)) (instructionPointer (state_ c)) = Some 0 ->
  at_ (instructions (program_ c)) (instructionPointer (state_ c) + 1)
  = Some operand ->
  0 <= resolveCombo c operand < 64 ->
  executeInstruction c
  = Normal (mkComputer (program_ c)
              (mkComputerState
                 (A (state_ c) / 2 ^ resolveCombo c operand)
                 (B (state_ c)) (C (state_ c))
                 (instructionPointer (state_ c) + 2))
              (output_ c)) /\
  (0 <= A (state_ c) ->
   A (state_ c) / 2 ^ resolveCombo c operand
   = Z.quot (A (state_ c)) (2 ^ resolveCombo c operand)).
Proof.
  intros Hs Hop Hoperand Hn.
  pose proof (at_lt _ _ _ Hop) as Hlt. split.
  - rewrite (executeInstruction_fetch _ _ _ Hs Hop Hoperand).
    unfold dispatch, shift_right.
    replace ((0 <=? resolveCombo c operand) && (resolveCombo c operand <? 64))
      with true
      by (symmetry; apply andb_true_iff; split;
          [apply Z.leb_le|apply Z.ltb_lt]; lia).
    rewrite Z.shiftr_div_pow2 by lia.
    rewrite advance_small by assumption. reflexivity.
  - intros HA. symmetry. apply Z.quot_div_nonneg; [assumption|].
    apply Z.pow_pos_nonneg; lia.
Qed.

Lemma executeInstruction_adv_witness :
  executeInstruction
    (mkComputer (mkProgram [0; 5]) (mkComputerState 2024 3 0 0) [])
  = Normal (mkComputer (mkProgram [0; 5])
              (mkComputerState (2024 / 2 ^ 3) 3 0 2) []) /\
  2024 / 2 ^ 3 = Z.quot 2024 (2 ^ 3).
Proof.
  destruct (executeInstruction_adv
              (mkComputer (mkProgram [0; 5]) (mkComputerState 2024 3 0 0) [])
              5) as (Hstep & Hquot).
  - unfold size_ok. vm_compute. discriminate.
  - reflexivity.
  - reflexivity.
  - simpl. lia.
  - split; [exact Hstep|]. apply Hquot. simpl. lia.
Defined.

(** X7. bdv (opcode 6) and cdv (opcode 7) compute the same quotient of A by
    2^n as adv but store it in B, respectively C; A itself is left as it
    was. *)
Theorem executeInstruction_bdv_cdv c opcode operand :
  size_ok (program_ c) ->
  opcode = 6 \/ opcode = 7 ->
  at_ (instructions (program_ c)) (instructionPointer (state_ c))
  = Some opcode ->
  at_ (instructions (program_ c)) (instructionPointer (state_ c) + 1)
  = Some operand ->
  0 <= resolveCombo c operand < 64 ->
  executeInstruction c
  = Normal (mkComputer (program_ c)
              (mkComputerState
                 (A (state_ c))
                 (if opcode =? 6
                  then A (state_ c) / 2 ^ resolveCombo c operand
                  else B (state_ c))
                 (if opcode =? 6
                  then C (state_ c)
                  else A (state_ c) / 2 ^ resolveCombo c operand)
                 (instructionPointer (state_ c) + 2))
              (output_ c)).
Proof.
  intros Hs Hcase Hop Hoperand Hn.
  pose proof (at_lt _ _ _ Hop) as Hlt.
  rewrite (executeInstruction_fetch _ _ _ Hs Hop Hoperand).
  destruct Hcase as [-> | ->]; unfold dispatch, shift_right;
    replace ((0 <=? resolveCombo c operand) && (resolveCombo c operand <? 64))
      with true
      by (symmetry; apply andb_true_iff; split;
          [apply Z.leb_le|apply Z.ltb_lt]; lia);
    rewrite Z.shiftr_div_pow2 by lia;
    rewrite advance_small by assumption; reflexivity.
Qed.

Lemma executeInstruction_bdv_cdv_witness :
  executeInstruction
    (mkComputer (mkProgram [7; 2]) (mkComputerState 29 1 1 0) [])
  = Normal (mkComputer (mkProgram [7; 2])
              (mkComputerState 29 1 (29 / 2 ^ 2) 2) []).
Proof.
  apply (executeInstruction_bdv_cdv
           (mkComputer (mkProgram [7; 2]) (mkComputerState 29 1 1 0) [])
           7 2).
  - unfold size_ok. vm_compute. discriminate.
  - right. reflexivity.
  - reflexivity.
  - reflexivity.
  - simpl. lia.
Defined.

Lemma size_t_of_int_nonneg x : 0 <= x -> int_range x -> size_t_of_int x = Z.to_N x.
Proof.
  unfold size_t_of_int, int_range. rewrite size_t_modulus_eq.
  change (Z.of_N 18446744073709551616) with 18446744073709551616.
  intros H0 H. rewrite Z.mod_small; [reflexivity|lia].
Qed.

Lemma size_t_of_int_negative x :
  x < 0 -> int_range x -> (vector_max_size < size_t_of_int x)%N.
Proof.
  unfold size_t_of_int, int_range.
  rewrite size_t_modulus_eq, vector_max_size_eq.
  change (Z.of_N 18446744073709551616) with 18446744073709551616.
  intros H0 H.
  rewrite <- (Z_mod_plus_full x 1 18446744073709551616).
  rewrite Z.mod_small; lia.
Qed.

(** X8. jnz (opcode 3) with A different from 0 and an operand that is not
    negative: the step sets the instruction pointer to the operand itself —
    it is not advanced by 2 afterwards — and leaves the registers and the
    output as they were. *)
Theorem executeInstruction_jnz_taken c operand :
  size_ok (program_ c) ->
  at_ (instructions (program_ c)) (instructionPointer (state_ c)) = Some 3 ->
  at_ (instructions (program_ c)) (instructionPointer (state_ c) + 1)
  = Some operand ->
  A (state_ c) <> 0 ->
  int_range operand ->
  0 <= operand ->
  executeInstruction c
  = Normal (mkComputer (program_ c)
              (mkComputerState (A (state_ c)) (B (state_ c)) (C (state_ c))
                 (Z.to_N operand))
              (output_ c)).
Proof.
  intros Hs Hop Hoperand HA Hr H0.
  rewrite (executeInstruction_fetch _ _ _ Hs Hop Hoperand).
  unfold dispatch. rewrite (proj2 (Z.eqb_neq _ _) HA).
  unfold set_instructionPointer.
  now rewrite size_t_of_int_nonneg.
Qed.

Lemma executeInstruction_jnz_taken_witness :
  executeInstruction
    (mkComputer (mkProgram [5; 4; 3; 0]) (mkComputerState 9 1 2 2) [1])
  = Normal (mkComputer (mkProgram [5; 4; 3; 0]) (mkComputerState 9 1 2 0) [1]).
Proof.
  apply (executeInstruction_jnz_taken
           (mkComputer (mkProgram [5; 4; 3; 0]) (mkComputerState 9 1 2 2) [1])
           0).
  - unfold size_ok. vm_compute. discriminate.
  - reflexivity.
  - reflexivity.
  - simpl. discriminate.
  - unfold int_range. lia.
  - lia.
Defined.

(** X9. A jump out of the Program halts the machine without an error: when
    jnz is taken with an operand that is negative (it wraps to a huge
    [size_t]) or at least the length of the Program, the step returns
    normally, the computer is halted, registers and output are unchanged,
    and [run] ends there. *)
Theorem jnz_outside_program_halts c operand fuel :
  size_ok (program_ c) ->
  at_ (instructions (program_ c)) (instructionPointer (state_ c)) = Some 3 ->
  at_ (instructions (program_ c)) (instructionPointer (state_ c) + 1)
  = Some operand ->
  A (state_ c) <> 0 ->
  int_range operand ->
  operand < 0 \/ Z.of_N (size (instructions (program_ c))) <= operand ->
  exists c',
    executeInstruction c = Normal c' /\
    isHalted c' = true /\
    program_ c' = program_ c /\
    A (state_ c') = A (state_ c) /\
    B (state_ c') = B (state_ c) /\
    C (state_ c') = C (state_ c) /\
    output_ c' = output_ c /\
    run (S fuel) c = Some (Normal c').
Proof.
  intros Hs Hop Hoperand HA Hr Hout.
  pose proof (at_lt _ _ _ Hop) as Hlt.
  assert (executeInstruction c
          = Normal (set_instructionPointer c (size_t_of_int operand))) as E.
  { rewrite (executeInstruction_fetch _ _ _ Hs Hop Hoperand).
    unfold dispatch. now rewrite (proj2 (Z.eqb_neq _ _) HA). }
  assert (isHalted (set_instructionPointer c (size_t_of_int operand)) = true)
    as Hh.
  { apply isHalted_true. simpl. unfold size_ok in Hs.
    destruct Hout as [Hneg|Hbig].
    - pose proof (size_t_of_int_negative _ Hneg Hr). lia.
    - rewrite size_t_of_int_nonneg by (try assumption; lia). lia. }
  eexists. split; [exact E|]. split; [exact Hh|].
  repeat (split; [reflexivity|]).
  simpl. rewrite (proj2 (isHalted_false c)) by assumption.
  rewrite E. now apply run_halted.
Qed.

Lemma jnz_outside_program_halts_witness :
  exists c',
    executeInstruction
      (mkComputer (mkProgram [3; -2; 5; 4]) (mkComputerState 1 0 0 0) [])
    = Normal c' /\
    isHalted c' = true /\
    program_ c' = mkProgram [3; -2; 5; 4] /\
    A (state_ c') = 1 /\ B (state_ c') = 0 /\ C (state_ c') = 0 /\
    output_ c' = [] /\
    run 1 (mkComputer (mkProgram [3; -2; 5; 4]) (mkComputerState 1 0 0 0) [])
    = Some (Normal c').
Proof.
  apply (jnz_outside_program_halts
           (mkComputer (mkProgram [3; -2; 5; 4]) (mkComputerState 1 0 0 0) [])
           (-2) 0).
  - unfold size_ok. vm_compute. discriminate.
  - reflexivity.
  - reflexivity.
  - simpl. discriminate.
  - unfold int_range. lia.
  - left. lia.
Defined.

(** X10. The entries of a Program are not validated, and an opcode outside
    0..7 is an instruction that does nothing: the step only advances the
    pointer by 2 (the operand must still be there). *)
Theorem executeInstruction_unknown_opcode c opcode operand :
  size_ok (program_ c) ->
  at_ (instructions (program_ c)) (instructionPointer (state_ c))
  = Some opcode ->
  at_ (instructions (program_ c)) (instructionPointer (state_ c) + 1)
  = Some operand ->
  opcode < 0 \/ 7 < opcode ->
  executeInstruction c
  = Normal (mkComputer (program_ c)
              (mkComputerState (A (state_ c)) (B (state_ c)) (C (state_ c))
                 (instructionPointer (state_ c) + 2))
              (output_ c)).
Proof.
  intros Hs Hop Hoperand Hcase.
  pose proof (at_lt _ _ _ Hop) as Hlt.
  rewrite (executeInstruction_fetch _ _ _ Hs Hop Hoperand).
  rewrite <- advance_small by assumption.
  unfold dispatch. small_int opcode; try lia; reflexivity.
Qed.

Lemma executeInstruction_unknown_opcode_witness :
  executeInstruction
    (mkComputer (mkProgram [8; 1; 5; 4]) (mkComputerState 1 2 3 0) [])
  = Normal (mkComputer (mkProgram [8; 1; 5; 4]) (mkComputerState 1 2 3 2) []).
Proof.
  apply (executeInstruction_unknown_opcode
           (mkComputer (mkProgram [8; 1; 5; 4]) (mkComputerState 1 2 3 0) [])
           8 1).
  - unfold size_ok. vm_compute. discriminate.
  - reflexivity.
  - reflexivity.
  - right. lia.
Defined.

(** X11. [Program::isInBounds] agrees with what a step does: for a pointer
    below [SIZE_MAX], [isInBounds(pointer)] holds exactly when the computer
    is running and the step at that pointer does not throw (opcode and
    operand are both there). *)
Theorem isInBounds_iff_executes c :
  size_ok (program_ c) ->
  (instructionPointer (state_ c) + 1 < size_t_modulus)%N ->
  isInBounds (program_ c) (instructionPointer (state_ c)) = true <->
  isHalted c = false /\
  forall e c', executeInstruction c <> Throws e c'.
Proof.
  intros Hs Hip. unfold isInBounds.
  rewrite N.mod_small by assumption. rewrite N.ltb_lt. split.
  - intros Hlt. split; [apply isHalted_false; lia|].
    intros e c' H. apply step_throws_iff in H; [|assumption].
    lia.
  - intros (Hh & Hno). apply isHalted_false in Hh.
    destruct (N.eq_dec (instructionPointer (state_ c) + 1)
                (size (instructions (program_ c)))) as [Heq|Hne]; [|lia].
    exfalso. apply (Hno std_out_of_range c).
    apply step_throws_iff; [assumption|]. now repeat split.
Qed.

Lemma isInBounds_iff_executes_witness :
  isInBounds (mkProgram [5; 4; 3]) 2 = true <->
  isHalted (mkComputer (mkProgram [5; 4; 3]) (mkComputerState 0 0 0 2) [])
  = false /\
  forall e c',
    executeInstruction
      (mkComputer (mkProgram [5; 4; 3]) (mkComputerState 0 0 0 2) [])
    <> Throws e c'.
Proof.
  apply (isInBounds_iff_executes
           (mkComputer (mkProgram [5; 4; 3]) (mkComputerState 0 0 0 2) [])).
  - unfold size_ok. vm_compute. discriminate.
  - vm_compute. reflexivity.
Defined.

(** * Further properties of the parser and of the rendering *)

#[local] Open Scope string_scope.

(** *** Decimal numerals *)

Lemma read_digits_stops rest acc :
  stops rest = true -> read_digits acc rest = acc.
Proof.
  destruct rest as [|ch rest]; simpl; [reflexivity|].
  intros H. apply negb_true_iff in H. now rewrite H.
Qed.

Lemma read_digits_numeral d : forall acc rest,
  stops rest = true ->
  read_digits acc (NilEmpty.string_of_uint d ++ rest)
  = match d with
    | Decimal.Nil => acc
    | _ => Some (uint_value d (match acc with Some v => v | None => 0 end))
    end.
Proof.
  induction d as [|l IH|l IH|l IH|l IH|l IH|l IH|l IH|l IH|l IH|l IH];
    intros acc rest Hrest; simpl;
    [now apply read_digits_stops|..];
    rewrite IH by assumption; destruct l; reflexivity.
Qed.

Lemma uint_value_of_uint_acc l : forall q,
  Zpos (Pos.of_uint_acc l q) = uint_value l (Zpos q).
Proof.
  induction l as [|l IH|l IH|l IH|l IH|l IH|l IH|l IH|l IH|l IH|l IH];
    intros q; cbn [Pos.of_uint_acc uint_value]; [reflexivity|..];
    rewrite IH; f_equal; lia.
Qed.

Lemma uint_value_of_uint d : Z.of_N (Pos.of_uint d) = uint_value d 0.
Proof.
  induction d as [|l IH|l IH|l IH|l IH|l IH|l IH|l IH|l IH|l IH|l IH];
    simpl; [reflexivity|exact IH|..]; apply uint_value_of_uint_acc.
Qed.

Lemma numeral_first_digit d :
  d <> Decimal.Nil ->
  exists ch s, NilEmpty.string_of_uint d = String ch s /\ isdigit ch = true.
Proof.
  destruct d; [congruence|..]; intros _; simpl; eauto.
Qed.

Lemma numeral_all_digits d : all_digits (NilEmpty.string_of_uint d) = true.
Proof. induction d; simpl; auto. Qed.

(** [to_string v] is an optional minus sign and the numeral of [|v|]. *)
Lemma to_string_shape v :
  exists d,
    d <> Decimal.Nil /\ uint_value d 0 = Z.abs v /\
    to_string v
    = (if (v <? 0)%Z then "-" else EmptyString) ++ NilEmpty.string_of_uint d.
Proof.
  unfold to_string. destruct v as [|q|q]; simpl.
  - exists (Decimal.D0 Decimal.Nil). repeat split. discriminate.
  - exists (Pos.to_uint q).
    split; [apply DecimalPos.Unsigned.to_uint_nonnil|].
    split.
    + rewrite <- uint_value_of_uint, DecimalPos.Unsigned.of_to. reflexivity.
    + unfold NilZero.string_of_uint.
      pose proof (DecimalPos.Unsigned.to_uint_nonnil q).
      destruct (Pos.to_uint q); congruence.
  - exists (Pos.to_uint q).
    split; [apply DecimalPos.Unsigned.to_uint_nonnil|].
    split.
    + rewrite <- uint_value_of_uint, DecimalPos.Unsigned.of_to. reflexivity.
    + unfold NilZero.string_of_uint.
      pose proof (DecimalPos.Unsigned.to_uint_nonnil q).
      destruct (Pos.to_uint q); congruence.
Qed.

Lemma to_string_is_integer v : is_integer (to_string v) = true.
Proof.
  destruct (to_string_shape v) as (d & Hd & _ & ->).
  destruct (numeral_first_digit d Hd) as (ch & s & E & Hch).
  pose proof (numeral_all_digits d) as Hall.
  destruct (v <? 0)%Z; simpl.
  - rewrite E. rewrite E in Hall. exact Hall.
  - rewrite E. rewrite E in Hall. unfold is_integer.
    destruct (Ascii.eqb ch "-") eqn:Eq; [|exact Hall].
    apply Ascii.eqb_eq in Eq. subst ch. discriminate.
Qed.

Lemma skip_space_app ws s :
  all_space ws = true -> skip_space (ws ++ s) = skip_space s.
Proof.
  induction ws as [|ch ws IH]; simpl; [reflexivity|].
  intros H. apply andb_true_iff in H. destruct H as [-> H]. auto.
Qed.

Lemma isdigit_not_space ch : isdigit ch = true -> isspace ch = false.
Proof.
  intros H. destruct (isspace ch) eqn:E; [|reflexivity].
  apply isspace_not_digit in E. congruence.
Qed.

Lemma numeral_read_back lo hi v ws rest :
  all_space ws = true ->
  stops rest = true ->
  string_to_integer lo hi (ws ++ to_string v ++ rest)
  = if ((lo <=? v) && (v <=? hi))%Z then Returns v else Raises std_out_of_range.
Proof.
  intros Hws Hrest. unfold string_to_integer.
  rewrite skip_space_app by assumption.
  destruct (to_string_shape v) as (d & Hd & Hval & ->).
  destruct (numeral_first_digit d Hd) as (ch & s & E & Hch).
  pose proof (read_digits_numeral d None rest Hrest) as Hread.
  assert (read_digits None (NilEmpty.string_of_uint d ++ rest)
          = Some (Z.abs v)) as Hread'.
  { rewrite Hread. destruct d; congruence. }
  destruct (v <? 0)%Z eqn:Hsign.
  - simpl. rewrite Hread'. apply Z.ltb_lt in Hsign.
    replace (- Z.abs v) with v by lia. reflexivity.
  - simpl. rewrite E in *. simpl.
    rewrite (isdigit_not_space _ Hch). unfold read_sign.
    assert (Ascii.eqb ch "-" = false) as ->.
    { destruct (Ascii.eqb ch "-") eqn:Eq; [|reflexivity].
      apply Ascii.eqb_eq in Eq. subst ch. discriminate. }
    assert (Ascii.eqb ch "+" = false) as ->.
    { destruct (Ascii.eqb ch "+") eqn:Eq; [|reflexivity].
      apply Ascii.eqb_eq in Eq. subst ch. discriminate. }
    change (String ch (s ++ rest)) with (String ch s ++ rest).
    rewrite Hread'. apply Z.ltb_ge in Hsign.
    replace (Z.abs v) with v by lia. reflexivity.
Qed.

(** X12. Reading back a printed number: on white space, the decimal text of
    [v] as [std::to_string] writes it, and anything that does not begin with
    a digit, [stoll] and [stoi] return [v] whenever [v] fits the result
    type, and throw [std::out_of_range] — never [std::invalid_argument] —
    when it does not. *)
Theorem string_to_integer_to_string lo hi v ws rest :
  all_space ws = true ->
  stops rest = true ->
  string_to_integer lo hi (ws ++ to_string v ++ rest)
  = if ((lo <=? v) && (v <=? hi))%Z then Returns v else Raises std_out_of_range.
Proof. exact (numeral_read_back lo hi v ws rest). Qed.

Lemma string_to_integer_to_string_witness :
  string_to_integer (- 2 ^ 31) (2 ^ 31 - 1) (" " ++ to_string (-2024) ++ " ,")
  = if ((- 2 ^ 31 <=? -2024) && (-2024 <=? 2 ^ 31 - 1))%Z
    then Returns (-2024) else Raises std_out_of_range.
Proof.
  apply (string_to_integer_to_string (- 2 ^ 31) (2 ^ 31 - 1) (-2024) " " " ,");
    reflexivity.
Defined.

Lemma stoi_to_string v : int_range v -> stoi (to_string v) = Returns v.
Proof.
  intros H. unfold stoi.
  pose proof (numeral_read_back (- 2 ^ 31) (2 ^ 31 - 1) v
                EmptyString EmptyString eq_refl eq_refl) as E.
  simpl append in E. rewrite append_nil_r in E. rewrite E.
  unfold int_range in H.
  replace ((- 2 ^ 31 <=? v) && (v <=? 2 ^ 31 - 1))%Z with true; [reflexivity|].
  symmetry. apply andb_true_iff. split; apply Z.leb_le; lia.
Qed.

Lemma stoll_space_to_string v :
  int64_range v -> stoll (" " ++ to_string v) = Returns v.
Proof.
  intros H. unfold stoll.
  pose proof (numeral_read_back (- 2 ^ 63) (2 ^ 63 - 1) v
                " " EmptyString eq_refl eq_refl) as E.
  rewrite append_nil_r in E. rewrite E.
  unfold int64_range in H.
  replace ((- 2 ^ 63 <=? v) && (v <=? 2 ^ 63 - 1))%Z with true; [reflexivity|].
  symmetry. apply andb_true_iff. split; apply Z.leb_le; lia.
Qed.

(** *** Rendering the output *)

Lemma concat_cons sep x l :
  String.concat sep (x :: l)
  = x ++ fold_right (fun y s => sep ++ y ++ s) EmptyString l.
Proof.
  revert x. induction l as [|y l IH]; intros x.
  - simpl. now rewrite append_nil_r.
  - change (String.concat sep (x :: y :: l))
      with (x ++ sep ++ String.concat sep (y :: l)).
    now rewrite IH.
Qed.

Lemma join_output_tail output : forall acc i,
  join_output acc (S i) output
  = acc ++ fold_right (fun y s => "," ++ y ++ s) EmptyString
             (map to_string output).
Proof.
  induction output as [|v output IH]; intros acc i; simpl.
  - now rewrite append_nil_r.
  - rewrite IH, !append_assoc. reflexivity.
Qed.

Lemma join_output_is_concat output :
  join_output EmptyString 0 output = String.concat "," (map to_string output).
Proof.
  destruct output as [|v output]; [reflexivity|].
  simpl map. rewrite concat_cons. simpl join_output.
  now rewrite join_output_tail.
Qed.

(** X13. The loop of [runProgram] renders the output as its decimal values
    separated by single commas, with no comma before the first or after the
    last, and as the empty string when nothing was emitted. *)
Theorem join_output_concat output :
  join_output EmptyString 0 output = String.concat "," (map to_string output).
Proof. exact (join_output_is_concat output). Qed.

Lemma comma_list_concat tokens : comma_list tokens = String.concat "," tokens.
Proof.
  induction tokens as [|t tokens IH]; [reflexivity|].
  destruct tokens as [|t' tokens]; [reflexivity|].
  change (comma_list (t :: t' :: tokens))
    with (t ++ "," ++ comma_list (t' :: tokens)).
  now rewrite IH.
Qed.

Lemma getline_loop_comma_list tokens :
  Forall (fun token => is_integer token = true) tokens ->
  getline_loop EmptyString (comma_list tokens) = tokens.
Proof.
  induction tokens as [|t tokens IH]; intros Hall; [reflexivity|].
  inversion Hall as [|t0 l0 Ht Hrest]; subst.
  pose proof (is_integer_no_comma _ Ht) as Hnc.
  pose proof (is_integer_nonempty _ Ht) as Hne.
  destruct tokens as [|t' tokens].
  - now apply getline_loop_last.
  - change (comma_list (t :: t' :: tokens))
      with (t ++ "," ++ comma_list (t' :: tokens)).
    rewrite getline_loop_comma by assumption. now rewrite IH.
Qed.

Lemma push_tokens_to_string program : forall r,
  Forall int_range program ->
  push_tokens r (map to_string program)
  = Returns (ParsedInput.mk (ParsedInput.A r) (ParsedInput.B r)
               (ParsedInput.C r) (ParsedInput.program r ++ program)).
Proof.
  induction program as [|v program IH]; intros r Hall; simpl.
  - rewrite app_nil_r. now destruct r.
  - inversion Hall as [|v0 l0 Hv Hrest]; subst.
    rewrite stoi_to_string by assumption. simpl.
    rewrite IH by assumption. simpl.
    now rewrite <- app_assoc.
Qed.

Lemma parse_program_text program r :
  Forall int_range program ->
  parse_line r ("Program: " ++ String.concat "," (map to_string program))
  = Returns (ParsedInput.mk (ParsedInput.A r) (ParsedInput.B r)
               (ParsedInput.C r) (ParsedInput.program r ++ program)).
Proof.
  intros Hall. rewrite parse_line_program, <- comma_list_concat.
  rewrite getline_loop_comma_list.
  - now apply push_tokens_to_string.
  - apply Forall_forall. intros t Ht. apply in_map_iff in Ht.
    destruct Ht as (v & <- & _). apply to_string_is_integer.
Qed.

(** X14. What [runProgram] prints can be read back: a Program line made of
    the rendered output is split by the [getline] loop into exactly the
    printed values, which [stoi] converts back, so that [parseInput] appends
    the output, value for value, to the program read so far. *)
Theorem parse_line_join_output output r :
  Forall int_range output ->
  parse_line r ("Program: " ++ join_output EmptyString 0 output)
  = Returns (ParsedInput.mk (ParsedInput.A r) (ParsedInput.B r)
               (ParsedInput.C r) (ParsedInput.program r ++ output)).
Proof.
  intros Hall. rewrite join_output_is_concat. now apply parse_program_text.
Qed.

Lemma parse_line_join_output_witness :
  parse_line ParsedInput.default
    ("Program: " ++ join_output EmptyString 0 [4; 6; 3; 5; -1; 0])
  = Returns (ParsedInput.mk None None None ([] ++ [4; 6; 3; 5; -1; 0])).
Proof.
  apply (parse_line_join_output [4; 6; 3; 5; -1; 0] ParsedInput.default).
  repeat constructor; unfold int_range; lia.
Defined.

(** *** Whole descriptions *)

Lemma parse_register_text x v r :
  int64_range v ->
  parse_line r (register_prefix x ++ " " ++ to_string v)
  = Returns (set_register x r v).
Proof.
  intros Hv. rewrite parse_line_register.
  rewrite stoll_space_to_string by assumption. now destruct x.
Qed.

Lemma parse_rendered a b c program :
  int64_range a -> int64_range b -> int64_range c ->
  Forall int_range program ->
  parseInput (render_input a b c program)
  = Returns (ParsedInput.mk (Some a) (Some b) (Some c) program).
Proof.
  intros Ha Hb Hc Hp. unfold parseInput.
  change (render_input a b c program)
    with [ register_prefix RegisterA ++ " " ++ to_string a;
           register_prefix RegisterB ++ " " ++ to_string b;
           register_prefix RegisterC ++ " " ++ to_string c;
           EmptyString;
           "Program: " ++ String.concat "," (map to_string program) ].
  cbn [parse_lines].
  rewrite (parse_register_text RegisterA) by assumption. cbn [bind].
  rewrite (parse_register_text RegisterB) by assumption. cbn [bind].
  rewrite (parse_register_text RegisterC) by assumption. cbn [bind].
  change (parse_line ?r EmptyString) with (Returns r). cbn [bind].
  rewrite parse_program_text by assumption. reflexivity.
Qed.

(** X15. Printing then parsing a machine description gives it back: for
    registers that fit [int64_t] and program entries that fit [int], the
    five lines of the input format, written with [std::to_string], are
    parsed without error into exactly these registers and this program (the
    empty program included). *)
Theorem parseInput_render_input a b c program :
  int64_range a -> int64_range b -> int64_range c ->
  Forall int_range program ->
  parseInput (render_input a b c program)
  = Returns (ParsedInput.mk (Some a) (Some b) (Some c) program).
Proof. exact (parse_rendered a b c program). Qed.

Lemma parseInput_render_input_witness :
  parseInput (render_input 729 0 (-5) [0; 1; 5; 4; 3; 0])
  = Returns (ParsedInput.mk (Some 729) (Some 0) (Some (-5))
               [0; 1; 5; 4; 3; 0]).
Proof.
  apply (parseInput_render_input 729 0 (-5) [0; 1; 5; 4; 3; 0]);
    try (unfold int64_range; lia).
  repeat constructor; unfold int_range; lia.
Defined.

(** X16. [runProgram] on the text of a machine description is the run of the
    computer built from that description: its answer is the comma-separated
    output of the halted computer, an exception of the run is passed on, and
    it has an answer exactly when the run comes to an end. *)
Theorem runProgram_render_input fuel a b c program :
  int64_range a -> int64_range b -> int64_range c ->
  Forall int_range program ->
  runProgram fuel (render_input a b c program)
  = render_outcome (run fuel (Computer_new (mkProgram program) a b c)).
Proof.
  intros Ha Hb Hc Hp. unfold runProgram.
  rewrite parse_rendered by assumption. simpl.
  destruct (run fuel (Computer_new (mkProgram program) a b c))
    as [[computer|e computer|]|]; simpl; try reflexivity.
  now rewrite join_output_is_concat.
Qed.

Lemma runProgram_render_input_witness :
  runProgram 20 (render_input 10 0 0 [5; 0; 5; 1; 5; 4])
  = render_outcome
      (run 20 (Computer_new (mkProgram [5; 0; 5; 1; 5; 4]) 10 0 0)).
Proof.
  apply (runProgram_render_input 20 10 0 0 [5; 0; 5; 1; 5; 4]);
    try (unfold int64_range; lia).
  repeat constructor; unfold int_range; lia.
Defined.

(** *** Lines that are not recognised, lines that come last *)

Lemma parse_lines_app l1 : forall r l2,
  parse_lines r (l1 ++ l2)
  = (r' <- parse_lines r l1 ;; parse_lines r' l2).
Proof.
  induction l1 as [|line l1 IH]; intros r l2; simpl; [reflexivity|].
  destruct (parse_line r line); simpl; auto.
Qed.

Lemma parse_line_unrecognised r line :
  recognised line = false -> parse_line r line = Returns r.
Proof.
  unfold recognised, parse_line. intros H.
  apply orb_false_iff in H. destruct H as [H ->].
  apply orb_false_iff in H. destruct H as [H ->].
  apply orb_false_iff in H. destruct H as [-> ->]. reflexivity.
Qed.

(** X17. A line that begins with none of "Register A:", "Register B:",
    "Register C:", "Program:" is skipped wherever it stands: removing it
    from the input changes nothing to what [parseInput] returns or
    throws. *)
Theorem parseInput_skips_unrecognised l1 line l2 :
  recognised line = false ->
  parseInput (l1 ++ line :: l2) = parseInput (l1 ++ l2).
Proof.
  intros H. unfold parseInput. rewrite !parse_lines_app.
  destruct (parse_lines ParsedInput.default l1) as [r|e]; simpl;
    [|reflexivity].
  now rewrite parse_line_unrecognised.
Qed.

Lemma parseInput_skips_unrecognised_witness :
  parseInput ([ "Register A: 729"; "Register B: 0" ]
              ++ "# registers above" :: [ "Register C: 0"; "Program: 0,1" ])
  = parseInput ([ "Register A: 729"; "Register B: 0" ]
                ++ [ "Register C: 0"; "Program: 0,1" ]).
Proof.
  apply (parseInput_skips_unrecognised
           [ "Register A: 729"; "Register B: 0" ] "# registers above"
           [ "Register C: 0"; "Program: 0,1" ]).
  reflexivity.
Defined.

(** X18. Lines are processed in order and the last one decides: a register
    line after an input that parses assigns its value to that register
    whatever the earlier lines had assigned, and leaves the rest of the
    result alone; a further Program line does not replace the program read
    so far but appends its entries to it. *)
Theorem parseInput_last_line input r :
  parseInput input = Returns r ->
  (forall x v,
     int64_range v ->
     parseInput (input ++ [register_prefix x ++ " " ++ to_string v])
     = Returns (set_register x r v)) /\
  (forall program,
     Forall int_range program ->
     parseInput
       (input ++ ["Program: " ++ String.concat "," (map to_string program)])
     = Returns (ParsedInput.mk (ParsedInput.A r) (ParsedInput.B r)
                  (ParsedInput.C r) (ParsedInput.program r ++ program))).
Proof.
  unfold parseInput. intros H. split.
  - intros x v Hv. rewrite parse_lines_app, H. cbn [bind parse_lines].
    now rewrite parse_register_text.
  - intros program Hp. rewrite parse_lines_app, H. cbn [bind parse_lines].
    now rewrite parse_program_text.
Qed.

Lemma parseInput_last_line_witness :
  parseInput (example_input ++ ["Register A: " ++ to_string 117440])
  = Returns (ParsedInput.mk (Some 117440) (Some 0) (Some 0)
               [0; 1; 5; 4; 3; 0]) /\
  parseInput
    (example_input ++ ["Program: " ++ String.concat "," (map to_string [5; 5])])
  = Returns (ParsedInput.mk (Some 729) (Some 0) (Some 0)
               ([0; 1; 5; 4; 3; 0] ++ [5; 5])).
Proof.
  destruct (parseInput_last_line example_input
              (ParsedInput.mk (Some 729) (Some 0) (Some 0) [0; 1; 5; 4; 3; 0])
              eq_refl) as (Hreg & Hprog).
  split.
  - apply (Hreg RegisterA 117440). unfold int64_range. lia.
  - apply (Hprog [5; 5]). repeat constructor; unfold int_range; lia.
Defined.

(** * Properties of day 6 *)

Module Day06Facts.

Import Day06.

#[local] Close Scope string_scope.

(** ** Directions *)

(** X19. [turn_right] is the quarter turn to the right of the screen
    coordinates ([y] grows downwards): it sends the delta [(dx, dy)] of a
    direction to [(-dy, dx)], it runs through UP, RIGHT, DOWN, LEFT in this
    order, and four turns give the direction back. *)
Theorem turn_right_rotates dir :
  get_direction_delta (turn_right dir)
  = (- snd (get_direction_delta dir), fst (get_direction_delta dir)) /\
  Direction_to_int (turn_right dir) = (Direction_to_int dir + 1) mod 4 /\
  turn_right (turn_right (turn_right (turn_right dir))) = dir.
Proof. destruct dir; repeat split; reflexivity. Qed.

(** ** Subscripts *)

Lemma int_ok_Some v : - 2 ^ 31 <= v < 2 ^ 31 -> int_ok v = Some v.
Proof.
  intros H. unfold int_ok.
  replace ((- 2 ^ 31 <=? v) && (v <? 2 ^ 31)) with true; [reflexivity|].
  symmetry. apply andb_true_iff. split; [apply Z.leb_le|apply Z.ltb_lt]; lia.
Qed.

Lemma is_in_bounds_iff cx cy width height :
  is_in_bounds cx cy width height = true <->
  0 <= cx < width /\ 0 <= cy < height.
Proof.
  unfold is_in_bounds.
  rewrite !andb_true_iff, !Z.leb_le, !Z.ltb_lt. lia.
Qed.

Lemma cell_bound cx cy width height :
  0 <= cx < width -> 0 <= cy < height ->
  0 <= cy * width /\ 0 <= cy * width + cx < width * height.
Proof. intros Hx Hy. nia. Qed.

Lemma cell_index_in_bounds cx cy width height :
  fits width height ->
  is_in_bounds cx cy width height = true ->
  cell_index width cx cy = Some (Z.to_nat (cy * width + cx)) /\
  (Z.to_nat (cy * width + cx) < Z.to_nat (width * height))%nat.
Proof.
  intros (Hw & Hh & Hfit) Hin. apply is_in_bounds_iff in Hin.
  destruct Hin as (Hx & Hy).
  destruct (cell_bound cx cy width height Hx Hy) as (H1 & H2).
  unfold cell_index.
  rewrite int_ok_Some by nia. rewrite int_ok_Some by lia.
  replace (cy * width + cx <? 0) with false
    by (symmetry; apply Z.ltb_ge; lia).
  split; [reflexivity|lia].
Qed.

Lemma cell_index_inj cx cy cx' cy' width height :
  is_in_bounds cx cy width height = true ->
  is_in_bounds cx' cy' width height = true ->
  Z.to_nat (cy * width + cx) = Z.to_nat (cy' * width + cx') ->
  cx = cx' /\ cy = cy'.
Proof.
  intros H H'. apply is_in_bounds_iff in H, H'.
  destruct H as (Hx & Hy). destruct H' as (Hx' & Hy').
  destruct (cell_bound cx cy width height Hx Hy) as (H1 & H2).
  destruct (cell_bound cx' cy' width height Hx' Hy') as (H1' & H2').
  intros E. assert (cy * width + cx = cy' * width + cx') as E' by lia.
  assert (cy = cy') by nia. subst cy'. lia.
Qed.

(** ** Assignment to an element *)

Lemma assign_Some {T : Type} (v : list T) : forall i e,
  (i < List.length v)%nat -> exists v', assign v i e = Some v'.
Proof.
  induction v as [|e0 v IH]; intros i e Hi; simpl in *; [lia|].
  destruct i as [|i]; [eauto|].
  destruct (IH i e) as [v' ->]; [lia|]. simpl. eauto.
Qed.

Lemma assign_spec {T : Type} (v : list T) : forall i e v',
  assign v i e = Some v' ->
  List.length v' = List.length v /\
  forall j, nth_error v' j = if Nat.eqb j i then Some e else nth_error v j.
Proof.
  induction v as [|e0 v IH]; intros i e v' H; simpl in H; [discriminate|].
  destruct i as [|i].
  - injection H as <-. split; [reflexivity|].
    intros [|j]; reflexivity.
  - destruct (assign v i e) as [w|] eqn:E; [|discriminate].
    injection H as <-. destruct (IH _ _ _ E) as (Hlen & Hnth).
    split; [simpl; congruence|].
    intros [|j]; simpl; [reflexivity|apply Hnth].
Qed.

(** ** The bits of the directions *)

Lemma dir_bit_law cell d d' :
  (Z.land (Z.lor cell (BitPackedStateSet.dir_bit d) mod 256)
     (BitPackedStateSet.dir_bit d') =? 0)
  = if Direction_eqb d d' then false
    else (Z.land cell (BitPackedStateSet.dir_bit d') =? 0).
Proof.
  change 256 with (2 ^ 8).
  rewrite <- Z.land_ones by lia.
  rewrite <- Z.land_assoc.
  replace (Z.land (Z.ones 8) (BitPackedStateSet.dir_bit d'))
    with (BitPackedStateSet.dir_bit d') by (now destruct d').
  rewrite Z.land_lor_distr_l.
  destruct d, d'; simpl Direction_eqb; cbv iota;
    match goal with
    | |- context [Z.land (BitPackedStateSet.dir_bit ?a)
                    (BitPackedStateSet.dir_bit ?b)] =>
        let v := eval vm_compute in
                 (Z.land (BitPackedStateSet.dir_bit a)
                    (BitPackedStateSet.dir_bit b)) in
        change (Z.land (BitPackedStateSet.dir_bit a)
                  (BitPackedStateSet.dir_bit b)) with v
    end;
    try (rewrite Z.lor_0_r; reflexivity);
    apply Z.eqb_neq; intros H; apply Z.lor_eq_0_iff in H;
    destruct H as [_ H]; discriminate H.
Qed.

Lemma state_set_spec width height :
  fits width height ->
  (exists s0,
     BitPackedStateSet.new width height = Some s0 /\
     states_for width height s0 /\
     forall cx cy dir,
       is_in_bounds cx cy width height = true ->
       BitPackedStateSet.contains s0 cx cy dir = Some false) /\
  (forall s cx cy dir,
     states_for width height s ->
     is_in_bounds cx cy width height = true ->
     exists s',
       BitPackedStateSet.set s cx cy dir = Some s' /\
       states_for width height s' /\
       forall cx' cy' dir',
         is_in_bounds cx' cy' width height = true ->
         exists b,
           BitPackedStateSet.contains s cx' cy' dir' = Some b /\
           BitPackedStateSet.contains s' cx' cy' dir'
           = Some (((cx' =? cx) && (cy' =? cy) && Direction_eqb dir dir')
                   || b)).
Proof.
  intros Hfit. pose proof Hfit as (Hw & Hh & Hlt). split.
  - unfold BitPackedStateSet.new, cell_count.
    rewrite int_ok_Some by nia.
    replace (width * height <? 0) with false
      by (symmetry; apply Z.ltb_ge; nia).
    simpl. eexists. split; [reflexivity|]. split.
    + split; [reflexivity|]. simpl. apply repeat_length.
    + intros cx cy dir Hin.
      destruct (cell_index_in_bounds _ _ _ _ Hfit Hin) as (Hidx & Hlen).
      unfold BitPackedStateSet.contains. simpl. rewrite Hidx.
      rewrite nth_error_repeat by assumption. reflexivity.
  - intros s cx cy dir (Hwidth & Hcells) Hin.
    destruct (cell_index_in_bounds _ _ _ _ Hfit Hin) as (Hidx & Hlen).
    unfold BitPackedStateSet.set. rewrite Hwidth, Hidx.
    destruct (nth_error (BitPackedStateSet.cells_ s)
                (Z.to_nat (cy * width + cx))) as [cell|] eqn:Ecell;
      [|apply nth_error_None in Ecell; lia].
    destruct (assign_Some (BitPackedStateSet.cells_ s)
                (Z.to_nat (cy * width + cx))
                (Z.lor cell (BitPackedStateSet.dir_bit dir) mod 256))
      as [cells' Ha]; [lia|].
    rewrite Ha. simpl. eexists. split; [reflexivity|].
    destruct (assign_spec _ _ _ _ Ha) as (Hlen' & Hnth).
    split; [split; simpl; congruence|].
    intros cx' cy' dir' Hin'.
    destruct (cell_index_in_bounds _ _ _ _ Hfit Hin') as (Hidx' & Hlen2).
    unfold BitPackedStateSet.contains. simpl. rewrite Hwidth, Hidx', Hnth.
    destruct (nth_error (BitPackedStateSet.cells_ s)
                (Z.to_nat (cy' * width + cx'))) as [cell'|] eqn:Ecell';
      [|apply nth_error_None in Ecell'; lia].
    eexists. split; [reflexivity|].
    destruct (Nat.eqb (Z.to_nat (cy' * width + cx'))
                (Z.to_nat (cy * width + cx))) eqn:Eidx.
    + apply Nat.eqb_eq in Eidx.
      destruct (cell_index_inj _ _ _ _ _ _ Hin' Hin Eidx) as (-> & ->).
      rewrite Ecell in Ecell'. injection Ecell' as <-.
      rewrite !Z.eqb_refl, dir_bit_law. simpl.
      destruct (Direction_eqb dir dir'); reflexivity.
    + apply Nat.eqb_neq in Eidx.
      replace ((cx' =? cx) && (cy' =? cy)) with false; [reflexivity|].
      symmetry. apply andb_false_iff.
      destruct (Z.eqb_spec cx' cx) as [->|]; [|now left].
      destruct (Z.eqb_spec cy' cy) as [->|]; [|now right].
      congruence.
Qed.

(** X20. [BitPackedStateSet] is a set of (cell, direction) pairs of the map:
    a set built for [width * height] answers no everywhere; on a cell of the
    map, [set] succeeds, keeps the set fit for the same dimensions, and
    afterwards [contains] answers yes for the pair that was set and what it
    answered before for every other pair of the map. *)
Theorem state_set_laws width height :
  fits width height ->
  (exists s0,
     BitPackedStateSet.new width height = Some s0 /\
     states_for width height s0 /\
     forall cx cy dir,
       is_in_bounds cx cy width height = true ->
       BitPackedStateSet.contains s0 cx cy dir = Some false) /\
  (forall s cx cy dir,
     states_for width height s ->
     is_in_bounds cx cy width height = true ->
     exists s',
       BitPackedStateSet.set s cx cy dir = Some s' /\
       states_for width height s' /\
       forall cx' cy' dir',
         is_in_bounds cx' cy' width height = true ->
         exists b,
           BitPackedStateSet.contains s cx' cy' dir' = Some b /\
           BitPackedStateSet.contains s' cx' cy' dir'
           = Some (((cx' =? cx) && (cy' =? cy) && Direction_eqb dir dir')
                   || b)).
Proof. exact (state_set_spec width height). Qed.

Lemma state_set_laws_witness :
  exists s0 s1,
    BitPackedStateSet.new 3 2 = Some s0 /\
    BitPackedStateSet.set s0 1 1 RIGHT = Some s1 /\
    BitPackedStateSet.contains s1 1 1 RIGHT = Some true /\
    BitPackedStateSet.contains s1 1 1 UP = Some false /\
    BitPackedStateSet.contains s1 2 1 RIGHT = Some false.
Proof.
  assert (fits 3 2) as Hfit by (unfold fits; lia).
  destruct (state_set_laws 3 2 Hfit) as ((s0 & Hnew & Hfor & Hempty) & Hset).
  destruct (Hset s0 1 1 RIGHT Hfor eq_refl) as (s1 & Hs1 & _ & Hc).
  exists s0, s1. split; [exact Hnew|]. split; [exact Hs1|].
  repeat split.
  - destruct (Hc 1 1 RIGHT eq_refl) as (b & _ & ->). reflexivity.
  - destruct (Hc 1 1 UP eq_refl) as (b & Hb & ->).
    rewrite (Hempty 1 1 UP eq_refl) in Hb. injection Hb as <-. reflexivity.
  - destruct (Hc 2 1 RIGHT eq_refl) as (b & Hb & ->).
    rewrite (Hempty 2 1 RIGHT eq_refl) in Hb. injection Hb as <-. reflexivity.
Defined.

(** ** The visited cells *)

Lemma count_fold_acc bits : forall acc,
  fold_left (fun cnt (b : bool) => if b then cnt + 1 else cnt) bits acc
  = acc + fold_left (fun cnt (b : bool) => if b then cnt + 1 else cnt) bits 0.
Proof.
  induction bits as [|b bits IH]; intros acc; cbn [fold_left]; [lia|].
  destruct b; [|apply IH].
  rewrite (IH (acc + 1)), (IH (0 + 1)). lia.
Qed.

Lemma count_cons b bits width :
  BitPackedVisited.count (BitPackedVisited.mk (b :: bits) width)
  = (if b then 1 else 0)
    + BitPackedVisited.count (BitPackedVisited.mk bits width).
Proof.
  unfold BitPackedVisited.count. simpl. rewrite count_fold_acc.
  destruct b; reflexivity.
Qed.

Lemma count_repeat n width :
  BitPackedVisited.count (BitPackedVisited.mk (repeat false n) width) = 0.
Proof.
  induction n as [|n IH]; [reflexivity|].
  simpl repeat. rewrite count_cons, IH. reflexivity.
Qed.

Lemma count_assign bits : forall i bits' b width,
  nth_error bits i = Some b ->
  assign bits i true = Some bits' ->
  BitPackedVisited.count (BitPackedVisited.mk bits' width)
  = BitPackedVisited.count (BitPackedVisited.mk bits width)
    + (if b then 0 else 1).
Proof.
  induction bits as [|b0 bits IH]; intros i bits' b width Hnth Ha;
    simpl in Ha; [discriminate|].
  destruct i as [|i].
  - injection Ha as <-. simpl in Hnth. injection Hnth as ->.
    rewrite !count_cons. destruct b; lia.
  - destruct (assign bits i true) as [w|] eqn:E; [|discriminate].
    injection Ha as <-. simpl in Hnth.
    rewrite !count_cons, (IH _ _ _ width Hnth E). lia.
Qed.

Lemma visited_spec width height :
  fits width height ->
  (exists v0,
     BitPackedVisited.new width height = Some v0 /\
     visited_for width height v0 /\
     BitPackedVisited.count v0 = 0 /\
     forall cx cy,
       is_in_bounds cx cy width height = true ->
       BitPackedVisited.contains v0 cx cy = Some false) /\
  (forall v cx cy,
     visited_for width height v ->
     is_in_bounds cx cy width height = true ->
     exists v' b,
       BitPackedVisited.contains v cx cy = Some b /\
       BitPackedVisited.set v cx cy = Some v' /\
       visited_for width height v' /\
       BitPackedVisited.count v'
       = BitPackedVisited.count v + (if b then 0 else 1) /\
       forall cx' cy',
         is_in_bounds cx' cy' width height = true ->
         exists b',
           BitPackedVisited.contains v cx' cy' = Some b' /\
           BitPackedVisited.contains v' cx' cy'
           = Some (((cx' =? cx) && (cy' =? cy)) || b')).
Proof.
  intros Hfit. pose proof Hfit as (Hw & Hh & Hlt). split.
  - unfold BitPackedVisited.new, cell_count.
    rewrite int_ok_Some by nia.
    replace (width * height <? 0) with false
      by (symmetry; apply Z.ltb_ge; nia).
    simpl. eexists. split; [reflexivity|]. split; [|split].
    + split; [reflexivity|]. simpl. apply repeat_length.
    + apply count_repeat.
    + intros cx cy Hin.
      destruct (cell_index_in_bounds _ _ _ _ Hfit Hin) as (Hidx & Hlen).
      unfold BitPackedVisited.contains. simpl. rewrite Hidx.
      now rewrite nth_error_repeat.
  - intros [bits w] cx cy (Hwidth & Hbits) Hin. simpl in Hwidth, Hbits.
    subst w.
    destruct (cell_index_in_bounds _ _ _ _ Hfit Hin) as (Hidx & Hlen).
    unfold BitPackedVisited.set, BitPackedVisited.contains. simpl.
    rewrite Hidx.
    destruct (nth_error bits (Z.to_nat (cy * width + cx))) as [b|] eqn:Eb;
      [|apply nth_error_None in Eb; lia].
    destruct (assign_Some bits (Z.to_nat (cy * width + cx)) true)
      as [bits' Ha]; [lia|].
    rewrite Ha. simpl. exists (BitPackedVisited.mk bits' width), b.
    destruct (assign_spec _ _ _ _ Ha) as (Hlen' & Hnth).
    split; [reflexivity|]. split; [reflexivity|].
    split; [split; simpl; congruence|].
    split; [now apply count_assign with (i := Z.to_nat (cy * width + cx))|].
    intros cx' cy' Hin'.
    destruct (cell_index_in_bounds _ _ _ _ Hfit Hin') as (Hidx' & Hlen2).
    simpl. rewrite Hidx', Hnth.
    destruct (nth_error bits (Z.to_nat (cy' * width + cx'))) as [b'|] eqn:Eb';
      [|apply nth_error_None in Eb'; lia].
    exists b'. split; [reflexivity|].
    destruct (Nat.eqb (Z.to_nat (cy' * width + cx'))
                (Z.to_nat (cy * width + cx))) eqn:Eidx.
    + apply Nat.eqb_eq in Eidx.
      destruct (cell_index_inj _ _ _ _ _ _ Hin' Hin Eidx) as (-> & ->).
      now rewrite !Z.eqb_refl.
    + apply Nat.eqb_neq in Eidx.
      replace ((cx' =? cx) && (cy' =? cy)) with false; [reflexivity|].
      symmetry. apply andb_false_iff.
      destruct (Z.eqb_spec cx' cx) as [->|]; [|now left].
      destruct (Z.eqb_spec cy' cy) as [->|]; [|now right].
      congruence.
Qed.

(** X21. [BitPackedVisited] is a set of cells of the map with its size: a
    fresh one is empty and counts 0; on a cell of the map [set] succeeds,
    [count] grows by one exactly when the cell was not yet in the set, and
    afterwards [contains] answers yes for that cell and what it answered
    before for every other cell of the map. *)
Theorem visited_laws width height :
  fits width height ->
  (exists v0,
     BitPackedVisited.new width height = Some v0 /\
     visited_for width height v0 /\
     BitPackedVisited.count v0 = 0 /\
     forall cx cy,
       is_in_bounds cx cy width height = true ->
       BitPackedVisited.contains v0 cx cy = Some false) /\
  (forall v cx cy,
     visited_for width height v ->
     is_in_bounds cx cy width height = true ->
     exists v' b,
       BitPackedVisited.contains v cx cy = Some b /\
       BitPackedVisited.set v cx cy = Some v' /\
       visited_for width height v' /\
       BitPackedVisited.count v'
       = BitPackedVisited.count v + (if b then 0 else 1) /\
       forall cx' cy',
         is_in_bounds cx' cy' width height = true ->
         exists b',
           BitPackedVisited.contains v cx' cy' = Some b' /\
           BitPackedVisited.contains v' cx' cy'
           = Some (((cx' =? cx) && (cy' =? cy)) || b')).
Proof. exact (visited_spec width height). Qed.

Lemma visited_laws_witness :
  exists v0 v1 v2,
    BitPackedVisited.new 3 2 = Some v0 /\
    BitPackedVisited.set v0 2 1 = Some v1 /\
    BitPackedVisited.set v1 2 1 = Some v2 /\
    BitPackedVisited.count v0 = 0 /\
    BitPackedVisited.count v1 = 1 /\
    BitPackedVisited.count v2 = 1 /\
    BitPackedVisited.contains v1 2 1 = Some true /\
    BitPackedVisited.contains v1 1 1 = Some false.
Proof.
  assert (fits 3 2) as Hfit by (unfold fits; lia).
  destruct (visited_laws 3 2 Hfit)
    as ((v0 & Hnew & Hfor & Hcount & Hempty) & Hset).
  destruct (Hset v0 2 1 Hfor eq_refl)
    as (v1 & b & Hb & Hs1 & Hfor1 & Hc1 & Hk1).
  rewrite (Hempty 2 1 eq_refl) in Hb. injection Hb as <-.
  destruct (Hset v1 2 1 Hfor1 eq_refl)
    as (v2 & b2 & Hb2 & Hs2 & _ & Hc2 & _).
  destruct (Hk1 2 1 eq_refl) as (b' & _ & Hin1).
  rewrite Hin1 in Hb2. injection Hb2 as <-.
  exists v0, v1, v2. repeat split; try assumption.
  - rewrite Hc1, Hcount. reflexivity.
  - rewrite Hc2, Hc1, Hcount. reflexivity.
  - destruct (Hk1 1 1 eq_refl) as (b1 & Hb1 & ->).
    rewrite (Hempty 1 1 eq_refl) in Hb1. injection Hb1 as <-. reflexivity.
Defined.

(** ** Finding the guard *)

Lemma int_of_size_small n :
  Z.of_nat n < 2 ^ 31 -> int_of_size n = Z.of_nat n.
Proof.
  intros H. unfold int_of_size. rewrite Z.mod_small; lia.
Qed.

Lemma int_loop_count_small n :
  Z.of_nat n < 2 ^ 31 -> int_loop_count n = n.
Proof.
  intros H. unfold int_loop_count. rewrite int_of_size_small by assumption.
  apply Nat2Z.id.
Qed.

Lemma scan_row_spec row : forall n cx,
  (scan_row n row cx = None /\
   ((String.length row <= n)%nat -> no_guard row = true)) \/
  (exists pre ch post dir,
     row = (pre ++ String ch post)%string /\
     no_guard pre = true /\
     guard_direction ch = Some dir /\
     scan_row n row cx
     = Some (cx + Z.of_nat (String.length pre), dir,
             (pre ++ String "." post)%string)).
Proof.
  induction row as [|ch row IH]; intros n cx.
  - left. split; [now destruct n|reflexivity].
  - destruct n as [|n].
    + left. split; [reflexivity|]. cbn [String.length]. lia.
    + cbn [scan_row no_guard].
      destruct (guard_direction ch) as [dir|] eqn:E.
      * right. exists EmptyString, ch, row, dir.
        repeat split; try assumption.
        cbn [String.length append]. now rewrite Z.add_0_r.
      * destruct (IH n (cx + 1))
          as [(-> & Hno)|(pre & c & post & dir & -> & Hno & Hc & ->)].
        -- left. split; [reflexivity|].
           cbn [String.length]. intros Hlen. apply Hno. lia.
        -- right. exists (String ch pre), c, post, dir.
           split; [reflexivity|].
           split; [cbn [no_guard]; now rewrite E|].
           split; [assumption|].
           cbn [String.length append]. rewrite Nat2Z.inj_succ.
           replace (cx + Z.succ (Z.of_nat (String.length pre)))
             with (cx + 1 + Z.of_nat (String.length pre)) by lia.
           reflexivity.
Qed.

Lemma scan_grid_spec grid : forall n cy,
  (scan_grid n grid cy = (grid, (-1, -1, UP)) /\
   ((List.length grid <= n)%nat ->
    Forall (fun row => Z.of_nat (String.length row) < 2 ^ 31) grid ->
    forallb no_guard grid = true)) \/
  (exists before pre ch post after dir,
     grid = before ++ (pre ++ String ch post)%string :: after /\
     (Forall (fun row => Z.of_nat (String.length row) < 2 ^ 31) before ->
      forallb no_guard before = true) /\
     no_guard pre = true /\
     guard_direction ch = Some dir /\
     scan_grid n grid cy
     = (before ++ (pre ++ String "." post)%string :: after,
        (Z.of_nat (String.length pre), cy + Z.of_nat (List.length before),
         dir))).
Proof.
  induction grid as [|row grid IH]; intros n cy.
  - left. split; [now destruct n|reflexivity].
  - destruct n as [|n].
    + left. split; [reflexivity|]. cbn [List.length]. lia.
    + cbn [scan_grid forallb].
      destruct (scan_row_spec row (int_loop_count (String.length row)) 0)
        as [(-> & Hno)|(pre & ch & post & dir & -> & Hno & Hch & ->)].
      * destruct (IH n (cy + 1))
          as [(-> & Hall)|(before & pre & ch & post & after & dir
                           & -> & Hb & Hp & Hch & ->)].
        -- left. split; [reflexivity|].
           cbn [List.length]. intros Hlen Hsmall.
           inversion Hsmall as [|r0 l0 Hrow Hrest]; subst r0 l0.
           rewrite Hno by (rewrite int_loop_count_small by assumption; lia).
           apply Hall; [lia|assumption].
        -- right. exists (row :: before), pre, ch, post, after, dir.
           split; [reflexivity|].
           split.
           { intros Hsmall.
             inversion Hsmall as [|r0 l0 Hrow Hrest]; subst r0 l0.
             cbn [forallb].
             rewrite Hno by (rewrite int_loop_count_small by assumption; lia).
             now apply Hb. }
           split; [assumption|]. split; [assumption|].
           cbn [List.length app]. rewrite Nat2Z.inj_succ.
           replace (cy + Z.succ (Z.of_nat (List.length before)))
             with (cy + 1 + Z.of_nat (List.length before)) by lia.
           reflexivity.
      * right. exists [], pre, ch, post, grid, dir.
        repeat split; try assumption.
        cbn [List.length app]. now rewrite Z.add_0_r, Z.add_0_l.
Qed.

(** X22. [find_guard_start] finds the first guard in reading order.  On a
    grid whose number of rows and row lengths are values of [int] (below
    2^31, so that the bounds [static_cast<int>(size)] of its two loops are
    the sizes themselves): either no row holds one of the characters
    ^ > v <, and it returns (-1, -1, UP) and leaves the grid as it is; or
    the grid splits into the rows before, a row [pre ++ ch ++ post] and the
    rows after, with no guard character in the rows before nor in [pre], and
    it returns the column (the length of [pre]), the row (the number of rows
    before) and the direction of [ch], the grid being the same but for a dot
    in the place of [ch]. *)
Theorem find_guard_start_spec grid :
  int_sized grid ->
  (forallb no_guard grid = true /\
   find_guard_start grid = (grid, (-1, -1, UP))) \/
  (exists before pre ch post after dir,
     grid = before ++ (pre ++ String ch post)%string :: after /\
     forallb no_guard before = true /\
     no_guard pre = true /\
     guard_direction ch = Some dir /\
     find_guard_start grid
     = (before ++ (pre ++ String "." post)%string :: after,
        (Z.of_nat (String.length pre), Z.of_nat (List.length before), dir))).
Proof.
  intros (Hrows & Hsmall). unfold find_guard_start.
  rewrite int_loop_count_small by assumption.
  destruct (scan_grid_spec grid (List.length grid) 0)
    as [(-> & Hall)|(before & pre & ch & post & after & dir
                     & -> & Hb & Hp & Hch & ->)].
  - left. split; [|reflexivity]. apply Hall; [lia|assumption].
  - right. exists before, pre, ch, post, after, dir.
    split; [reflexivity|].
    split; [apply Hb; now apply Forall_app in Hsmall|].
    repeat split; assumption.
Qed.

Lemma find_guard_start_spec_witness :
  exists before pre ch post after dir,
    [ ".#."%string; "..>"%string; ".^."%string ]
    = before ++ (pre ++ String ch post)%string :: after /\
    forallb no_guard before = true /\
    no_guard pre = true /\
    guard_direction ch = Some dir /\
    find_guard_start [ ".#."%string; "..>"%string; ".^."%string ]
    = (before ++ (pre ++ String "." post)%string :: after,
       (Z.of_nat (String.length pre), Z.of_nat (List.length before), dir)).
Proof.
  destruct (find_guard_start_spec
              [ ".#."%string; "..>"%string; ".^."%string ])
    as [(Hno & _)|H].
  - unfold int_sized. split; [simpl; lia|].
    repeat constructor; simpl; lia.
  - discriminate Hno.
  - exact H.
Defined.

(** ** A map without a guard *)

Lemma scan_row_no_guard row : forall n cx,
  no_guard row = true -> scan_row n row cx = None.
Proof.
  induction row as [|ch row IH]; intros n cx H; [now destruct n|].
  destruct n as [|n]; [reflexivity|].
  cbn [scan_row no_guard] in *.
  destruct (guard_direction ch); [discriminate|].
  now rewrite IH.
Qed.

Lemma scan_grid_no_guard grid : forall n cy,
  forallb no_guard grid = true -> scan_grid n grid cy = (grid, (-1, -1, UP)).
Proof.
  induction grid as [|row grid IH]; intros n cy H; [now destruct n|].
  destruct n as [|n]; [reflexivity|].
  cbn [scan_grid forallb] in *.
  apply andb_true_iff in H. destruct H as (Hrow & Hgrid).
  now rewrite scan_row_no_guard, IH.
Qed.

Lemma patrol_off_map fuel grid width height visited cx cy dir :
  is_in_bounds cx cy width height = false ->
  patrol fuel grid width height visited cx cy dir = Done visited.
Proof. intros H. destruct fuel; simpl; now rewrite H. Qed.

Lemma all_cells_in_bounds width height cx cy :
  In (cx, cy) (all_cells width height) ->
  is_in_bounds cx cy width height = true.
Proof.
  unfold all_cells, int_range_list. intros H.
  apply in_flat_map in H. destruct H as (cy' & Hy & H).
  apply in_map_iff in H. destruct H as (cx' & E & Hx).
  injection E as -> ->.
  apply in_map_iff in Hx, Hy.
  destruct Hx as (i & <- & Hi). destruct Hy as (j & <- & Hj).
  apply in_seq in Hi, Hj. apply is_in_bounds_iff. lia.
Qed.

Lemma count_loops_unvisited fuel grid dir visited width height cells :
  (forall cx cy, In (cx, cy) cells ->
     is_in_bounds cx cy width height = true) ->
  (forall cx cy, is_in_bounds cx cy width height = true ->
     BitPackedVisited.contains visited cx cy = Some false) ->
  forall count,
    count_loops fuel grid (-1) (-1) dir visited cells count = Done count.
Proof.
  intros Hcells Hempty.
  induction cells as [|[cx cy] cells IH]; intros count; [reflexivity|].
  cbn [count_loops].
  assert (is_in_bounds cx cy width height = true) as Hin
    by (apply Hcells; now left).
  rewrite (Hempty _ _ Hin).
  assert (forall cx' cy', In (cx', cy') cells ->
            is_in_bounds cx' cy' width height = true) as Hrest
    by (intros; apply Hcells; now right).
  destruct ((cx =? -1) && (cy =? -1)); now apply IH.
Qed.

(** X23. A map without a guard is not an error: when no row holds one of
    the characters ^ > v <, the start is (-1, -1), the patrol loop does not
    run, and both [solve_part1] and [solve_part2] answer "0", whatever the
    bound on the loops. *)
Theorem no_guard_answers_zero grid width height fuel :
  forallb no_guard grid = true ->
  dimensions grid = Some (width, height) ->
  fits width height ->
  Day06.solve_part1 fuel grid = Done "0"%string /\
  Day06.solve_part2 fuel grid = Done "0"%string.
Proof.
  intros Hno Hdim Hfit.
  destruct (visited_spec width height Hfit)
    as ((v0 & Hnew & _ & Hcount & Hempty) & _).
  assert (is_in_bounds (-1) (-1) width height = false) as Hout by reflexivity.
  split.
  - unfold Day06.solve_part1, find_guard_start.
    rewrite scan_grid_no_guard by assumption.
    unfold simulate_patrol. rewrite Hdim, Hnew.
    rewrite patrol_off_map by assumption. now rewrite Hcount.
  - unfold Day06.solve_part2, find_guard_start.
    rewrite scan_grid_no_guard by assumption.
    rewrite Hdim, Hnew. rewrite patrol_off_map by assumption.
    rewrite (count_loops_unvisited fuel grid UP v0 width height).
    + reflexivity.
    + apply all_cells_in_bounds.
    + assumption.
Qed.

Lemma no_guard_answers_zero_witness :
  Day06.solve_part1 0 [ "..#"%string; "#.."%string ] = Done "0"%string /\
  Day06.solve_part2 0 [ "..#"%string; "#.."%string ] = Done "0"%string.
Proof.
  apply (no_guard_answers_zero [ "..#"%string; "#.."%string ] 3 2 0).
  - reflexivity.
  - reflexivity.
  - unfold fits. lia.
Defined.

(** ** Rectangular maps *)

Lemma rectangular_dimensions grid width height :
  rectangular grid width height -> fits width height ->
  dimensions grid = Some (width, height).
Proof.
  intros (Hne & Hh & Hlt & Hrows) (Hw & _ & Hfit).
  destruct grid as [|row grid]; [congruence|].
  apply Forall_inv in Hrows. unfold dimensions.
  assert (1 <= Z.of_nat (List.length (row :: grid)))
    by (cbn [List.length]; lia).
  rewrite !int_of_size_small by nia.
  now rewrite Hrows, Hh.
Qed.

Lemma string_get_Some s : forall n,
  (n < String.length s)%nat -> exists ch, String.get n s = Some ch.
Proof.
  induction s as [|c s IH]; intros n Hn; simpl in Hn; [lia|].
  destruct n as [|n]; simpl; [eauto|]. apply IH. lia.
Qed.

Lemma rectangular_grid_at grid width height cx cy :
  rectangular grid width height ->
  is_in_bounds cx cy width height = true ->
  exists ch, grid_at grid cx cy = Some ch.
Proof.
  intros (_ & Hh & _ & Hrows) Hin. apply is_in_bounds_iff in Hin.
  unfold grid_at.
  replace ((cx <? 0) || (cy <? 0)) with false
    by (symmetry; apply orb_false_iff; split; apply Z.ltb_ge; lia).
  destruct (nth_error grid (Z.to_nat cy)) as [row|] eqn:E;
    [|apply nth_error_None in E; lia].
  apply nth_error_In in E. rewrite Forall_forall in Hrows.
  apply Hrows in E. unfold string_at.
  destruct (string_get_Some row (Z.to_nat cx)) as [ch ->]; [lia|eauto].
Qed.

Lemma blocked_no_obstruction grid cx cy ch :
  grid_at grid cx cy = Some ch ->
  blocked grid None cx cy = Ascii.eqb ch "#".
Proof. intros H. unfold blocked. rewrite H. apply orb_false_r. Qed.

(** One iteration of the patrol loop is one application of the rule. *)
Lemma patrol_step fuel grid width height visited visited' cx cy dir :
  rectangular grid width height ->
  is_in_bounds cx cy width height = true ->
  BitPackedVisited.set visited cx cy = Some visited' ->
  patrol (S fuel) grid width height visited cx cy dir
  = let '(nx, ny, ndir) := guard_step grid width height None (cx, cy, dir) in
    patrol fuel grid width height visited' nx ny ndir.
Proof.
  intros Hrect Hin Hset. cbn [patrol]. rewrite Hin, Hset.
  unfold guard_step.
  destruct (get_direction_delta dir) as [dx dy].
  destruct (is_in_bounds (cx + dx) (cy + dy) width height) eqn:Hnext;
    [|reflexivity].
  destruct (rectangular_grid_at _ _ _ _ _ Hrect Hnext) as [ch Hch].
  rewrite Hch, (blocked_no_obstruction _ _ _ _ Hch). simpl.
  destruct (Ascii.eqb ch "#"); reflexivity.
Qed.

(** One iteration of the detection loop on a state that is on the map and
    was not seen before. *)
Lemma detect_step fuel grid width height obstruction_pos s s' cx cy dir :
  rectangular grid width height ->
  is_in_bounds cx cy width height = true ->
  BitPackedStateSet.contains s cx cy dir = Some false ->
  BitPackedStateSet.set s cx cy dir = Some s' ->
  detect (S fuel) grid width height obstruction_pos s cx cy dir
  = let '(nx, ny, ndir) :=
      guard_step grid width height obstruction_pos (cx, cy, dir) in
    detect fuel grid width height obstruction_pos s' nx ny ndir.
Proof.
  intros Hrect Hin Hc Hset. cbn [detect]. rewrite Hin, Hc, Hset.
  cbn [negb]. unfold guard_step.
  destruct (get_direction_delta dir) as [dx dy].
  destruct (is_in_bounds (cx + dx) (cy + dy) width height) eqn:Hnext;
    [|reflexivity].
  destruct (rectangular_grid_at _ _ _ _ _ Hrect Hnext) as [ch Hch].
  unfold blocked. rewrite Hch. simpl.
  destruct (Ascii.eqb ch "#" ||
            match obstruction_pos with
            | Some pos => (cx + dx =? x pos) && (cy + dy =? y pos)
            | None => false
            end); reflexivity.
Qed.

Lemma walk_add grid width height obstruction_pos a : forall b g,
  walk grid width height obstruction_pos (a + b) g
  = walk grid width height obstruction_pos b
      (walk grid width height obstruction_pos a g).
Proof.
  induction a as [|a IH]; intros b g; [reflexivity|].
  simpl. apply IH.
Qed.

Lemma walk_succ grid width height obstruction_pos n g :
  walk grid width height obstruction_pos (S n) g
  = guard_step grid width height obstruction_pos
      (walk grid width height obstruction_pos n g).
Proof.
  replace (S n) with (n + 1)%nat by lia. now rewrite walk_add.
Qed.

(** ** The patrol counts the cells of the walk *)

Section Patrol.

Variables (grid : list string) (width height : Z).
Hypothesis Hrect : rectangular grid width height.
Hypothesis Hfit : fits width height.

Lemma holds_cells_set v cells cx cy :
  visited_for width height v ->
  holds_cells width height v cells ->
  NoDup cells ->
  BitPackedVisited.count v = Z.of_nat (List.length cells) ->
  is_in_bounds cx cy width height = true ->
  exists v' cells',
    BitPackedVisited.set v cx cy = Some v' /\
    visited_for width height v' /\
    holds_cells width height v' cells' /\
    NoDup cells' /\
    BitPackedVisited.count v' = Z.of_nat (List.length cells') /\
    forall p, In p cells' <-> In p cells \/ p = (cx, cy).
Proof.
  intros Hfor Hholds Hnd Hcount Hin.
  destruct (visited_spec width height Hfit) as (_ & Hset).
  destruct (Hset v cx cy Hfor Hin) as (v' & b & Hb & Hs & Hfor' & Hc & Hk).
  destruct (Hholds cx cy Hin) as (b0 & Hb0 & Hiff).
  rewrite Hb in Hb0. injection Hb0 as <-.
  exists v', (if b then cells else (cx, cy) :: cells).
  split; [assumption|]. split; [assumption|].
  assert (forall p, In p (if b then cells else (cx, cy) :: cells)
                    <-> In p cells \/ p = (cx, cy)) as Hmem.
  { intros p. destruct b; simpl.
    - split; [tauto|]. intros [H| ->]; [assumption|]. now apply Hiff.
    - split; intros [H|H]; auto. }
  split; [|split; [|split; [|exact Hmem]]].
  - intros cx' cy' Hin'.
    destruct (Hk cx' cy' Hin') as (b' & Hb' & ->).
    destruct (Hholds cx' cy' Hin') as (b1 & Hb1 & Hiff').
    rewrite Hb' in Hb1. injection Hb1 as <-.
    eexists. split; [reflexivity|].
    rewrite Hmem, orb_true_iff, andb_true_iff, !Z.eqb_eq, Hiff'.
    split; intros [H|H]; auto.
    + right. destruct H as [-> ->]. reflexivity.
    + left. now injection H as -> ->.
  - destruct b; [assumption|]. constructor; [|assumption].
    intros H. apply Hiff in H. discriminate.
  - rewrite Hc, Hcount. destruct b; [lia|].
    cbn [List.length]. lia.
Qed.

Lemma patrol_walk k : forall fuel v cells cx cy dir,
  visited_for width height v ->
  holds_cells width height v cells ->
  NoDup cells ->
  BitPackedVisited.count v = Z.of_nat (List.length cells) ->
  (k <= fuel)%nat ->
  (forall j, (j < k)%nat ->
     on_map width height (walk grid width height None j (cx, cy, dir)) = true) ->
  on_map width height (walk grid width height None k (cx, cy, dir)) = false ->
  exists v' cells',
    patrol fuel grid width height v cx cy dir = Done v' /\
    BitPackedVisited.count v' = Z.of_nat (List.length cells') /\
    NoDup cells' /\
    holds_cells width height v' cells' /\
    forall p,
      In p cells' <->
      In p cells \/
      exists j, (j < k)%nat /\
                position (walk grid width height None j (cx, cy, dir)) = p.
Proof.
  induction k as [|k IH];
    intros fuel v cells cx cy dir Hfor Hholds Hnd Hcount Hk Hon Hoff.
  - exists v, cells. simpl in Hoff.
    rewrite patrol_off_map by assumption.
    repeat split; try assumption; [tauto|].
    intros [H|(j & Hj & _)]; [assumption|lia].
  - destruct fuel as [|fuel]; [lia|].
    assert (is_in_bounds cx cy width height = true) as Hin
      by (apply (Hon 0%nat); lia).
    destruct (holds_cells_set v cells cx cy Hfor Hholds Hnd Hcount Hin)
      as (v1 & cells1 & Hset & Hfor1 & Hholds1 & Hnd1 & Hcount1 & Hmem).
    rewrite (patrol_step fuel grid width height v v1 cx cy dir Hrect Hin Hset).
    destruct (guard_step grid width height None (cx, cy, dir))
      as [[nx ny] ndir] eqn:Estep.
    destruct (IH fuel v1 cells1 nx ny ndir Hfor1 Hholds1 Hnd1 Hcount1)
      as (v' & cells' & Hp & Hc' & Hnd' & Hholds' & Hmem'); [lia| | |].
    + intros j Hj. rewrite <- Estep. apply (Hon (S j)). lia.
    + rewrite <- Estep. exact Hoff.
    + exists v', cells'. repeat split; try assumption.
      * intros H. apply Hmem' in H.
        destruct H as [H|(j & Hj & H)].
        -- apply Hmem in H. destruct H as [H| ->]; [now left|].
           right. exists 0%nat. split; [lia|reflexivity].
        -- right. exists (S j). split; [lia|].
           cbn [walk]. now rewrite Estep.
      * intros H. apply Hmem'.
        destruct H as [H|(j & Hj & H)].
        -- left. apply Hmem. now left.
        -- destruct j as [|j].
           ++ left. apply Hmem. right. now rewrite <- H.
           ++ right. exists j. split; [lia|].
              cbn [walk] in H. now rewrite Estep in H.
Qed.

Lemma patrol_counts start_x start_y start_dir k fuel :
  (forall j, (j < k)%nat ->
     on_map width height
       (walk grid width height None j (start_x, start_y, start_dir)) = true) ->
  on_map width height
    (walk grid width height None k (start_x, start_y, start_dir)) = false ->
  (k <= fuel)%nat ->
  exists cells,
    simulate_patrol fuel grid start_x start_y start_dir
    = Done (Z.of_nat (List.length cells)) /\
    NoDup cells /\
    forall p,
      In p cells <->
      exists j, (j < k)%nat /\
                position (walk grid width height None j
                            (start_x, start_y, start_dir)) = p.
Proof.
  intros Hon Hoff Hk.
  destruct (visited_spec width height Hfit)
    as ((v0 & Hnew & Hfor & Hcount & Hempty) & _).
  destruct (patrol_walk k fuel v0 [] start_x start_y start_dir)
    as (v' & cells & Hp & Hc & Hnd & _ & Hmem); try assumption.
  - intros cx cy Hin. exists false. split; [now apply Hempty|].
    split; [discriminate|intros []].
  - constructor.
  - exists cells. split; [|split; [assumption|]].
    + unfold simulate_patrol.
      rewrite (rectangular_dimensions _ _ _ Hrect Hfit), Hnew, Hp.
      now rewrite Hc.
    + intros p. rewrite Hmem. simpl. tauto.
Qed.

(** X24. [simulate_patrol] counts what the puzzle asks for.  On a
    rectangular map, if the guard that follows the rule (turn right in front
    of an obstacle, else step forward) is on the map for its first [k]
    states and off the map after them, then with a bound of at least [k]
    iterations [simulate_patrol] returns the number of distinct cells among
    the positions of these [k] states. *)
Theorem simulate_patrol_counts start_x start_y start_dir k fuel :
  (forall j, (j < k)%nat ->
     on_map width height
       (walk grid width height None j (start_x, start_y, start_dir)) = true) ->
  on_map width height
    (walk grid width height None k (start_x, start_y, start_dir)) = false ->
  (k <= fuel)%nat ->
  exists cells,
    simulate_patrol fuel grid start_x start_y start_dir
    = Done (Z.of_nat (List.length cells)) /\
    NoDup cells /\
    forall p,
      In p cells <->
      exists j, (j < k)%nat /\
                position (walk grid width height None j
                            (start_x, start_y, start_dir)) = p.
Proof. exact (patrol_counts start_x start_y start_dir k fuel). Qed.

End Patrol.

Lemma rectangular_example :
  rectangular [ ".#."%string; "..."%string; "..."%string ] 3 3.
Proof.
  unfold rectangular. split; [discriminate|]. split; [reflexivity|].
  split; [lia|]. repeat constructor.
Defined.

Lemma simulate_patrol_counts_witness :
  exists cells,
    simulate_patrol 4 [ ".#."%string; "..."%string; "..."%string ] 1 2 UP
    = Done (Z.of_nat (List.length cells)) /\
    NoDup cells /\
    forall p,
      In p cells <->
      exists j, (j < 4)%nat /\
                position
                  (walk [ ".#."%string; "..."%string; "..."%string ] 3 3 None
                     j (1, 2, UP)) = p.
Proof.
  apply (simulate_patrol_counts
           [ ".#."%string; "..."%string; "..."%string ] 3 3
           rectangular_example).
  - unfold fits. lia.
  - intros j Hj.
    destruct j as [|[|[|[|j]]]]; try reflexivity. lia.
  - reflexivity.
  - lia.
Defined.

(** ** Loop detection *)

Lemma Direction_eqb_eq d d' : Direction_eqb d d' = true <-> d = d'.
Proof. destruct d, d'; split; intros H; try reflexivity; discriminate. Qed.

Lemma int_range_list_In n z : In z (int_range_list n) <-> 0 <= z < n.
Proof.
  unfold int_range_list. rewrite in_map_iff. split.
  - intros (i & <- & Hi). apply in_seq in Hi. lia.
  - intros H. exists (Z.to_nat z). split; [lia|]. apply in_seq. lia.
Qed.

Lemma all_cells_In width height cx cy :
  In (cx, cy) (all_cells width height) <->
  is_in_bounds cx cy width height = true.
Proof.
  split; [apply all_cells_in_bounds|].
  intros H. apply is_in_bounds_iff in H. unfold all_cells.
  apply in_flat_map. exists cy. split; [now apply int_range_list_In|].
  apply in_map_iff. exists cx. split; [reflexivity|].
  now apply int_range_list_In.
Qed.

Lemma flat_map_length_const {U V : Type} (f : U -> list V) m l :
  (forall u, List.length (f u) = m) ->
  List.length (flat_map f l) = (m * List.length l)%nat.
Proof.
  intros Hf. induction l as [|u l IH]; simpl; [lia|].
  rewrite length_app, Hf, IH. lia.
Qed.

Lemma all_states_length width height :
  List.length (all_states width height)
  = (4 * (Z.to_nat width * Z.to_nat height))%nat.
Proof.
  unfold all_states.
  rewrite (flat_map_length_const _ 4%nat) by reflexivity.
  unfold all_cells.
  rewrite (flat_map_length_const _ (Z.to_nat width)).
  - unfold int_range_list. now rewrite length_map, length_seq.
  - intros u. unfold int_range_list. now rewrite !length_map, length_seq.
Qed.

Lemma all_states_In width height g :
  on_map width height g = true -> In g (all_states width height).
Proof.
  destruct g as [[cx cy] dir]. simpl. intros H.
  unfold all_states. apply in_flat_map. exists (cx, cy).
  split; [now apply all_cells_In|].
  destruct dir; simpl; auto.
Qed.

Section Detect.

Variables (grid : list string) (width height : Z).
Variable obstruction_pos : option Position.
Variables (start_x start_y : Z) (start_dir : Direction).
Hypothesis Hrect : rectangular grid width height.
Hypothesis Hfit : fits width height.

Notation "'walk0' n" :=
  (walk grid width height obstruction_pos n (start_x, start_y, start_dir))
  (at level 10, n at level 9).

Lemma walk_periodic i j :
  (j < i)%nat ->
  walk0 j = walk0 i ->
  (forall m, (m < i)%nat -> on_map width height (walk0 m) = true) ->
  forall n, on_map width height (walk0 n) = true.
Proof.
  intros Hji Heq Hon n.
  induction n as [n IH] using lt_wf_ind.
  destruct (Nat.lt_ge_cases n i) as [Hlt|Hge]; [now apply Hon|].
  replace n with (i + (n - i))%nat by lia.
  rewrite walk_add, <- Heq, <- walk_add.
  apply IH. lia.
Qed.

Lemma holds_states_set s states cx cy dir :
  states_for width height s ->
  holds_states width height s states ->
  is_in_bounds cx cy width height = true ->
  exists s',
    BitPackedStateSet.set s cx cy dir = Some s' /\
    states_for width height s' /\
    holds_states width height s' ((cx, cy, dir) :: states).
Proof.
  intros Hfor Hholds Hin.
  destruct (state_set_spec width height Hfit) as (_ & Hset).
  destruct (Hset s cx cy dir Hfor Hin) as (s' & Hs & Hfor' & Hk).
  exists s'. split; [assumption|]. split; [assumption|].
  intros cx' cy' dir' Hin'.
  destruct (Hk cx' cy' dir' Hin') as (b & Hb & ->).
  destruct (Hholds cx' cy' dir' Hin') as (b1 & Hb1 & Hiff).
  rewrite Hb in Hb1. injection Hb1 as <-.
  eexists. split; [reflexivity|].
  rewrite orb_true_iff, !andb_true_iff, !Z.eqb_eq, Direction_eqb_eq, Hiff.
  simpl. split; intros [H|H]; auto.
  - left. destruct H as [[-> ->] ->]. reflexivity.
  - left. now injection H as -> -> ->.
Qed.

Lemma detect_off_map fuel s cx cy dir :
  is_in_bounds cx cy width height = false ->
  detect (S fuel) grid width height obstruction_pos s cx cy dir = Done false.
Proof. intros H. cbn [detect]. now rewrite H. Qed.

Lemma detect_seen fuel s cx cy dir :
  is_in_bounds cx cy width height = true ->
  BitPackedStateSet.contains s cx cy dir = Some true ->
  detect (S fuel) grid width height obstruction_pos s cx cy dir = Done true.
Proof. intros H Hc. cbn [detect]. now rewrite H, Hc. Qed.

Lemma detect_walk fuel : forall i s states cx cy dir,
  states_for width height s ->
  holds_states width height s states ->
  NoDup states ->
  (forall g, In g states <-> exists j, (j < i)%nat /\ walk0 j = g) ->
  (forall j, (j < i)%nat -> on_map width height (walk0 j) = true) ->
  walk0 i = (cx, cy, dir) ->
  (detect fuel grid width height obstruction_pos s cx cy dir = Done true ->
   forall n, on_map width height (walk0 n) = true) /\
  (detect fuel grid width height obstruction_pos s cx cy dir = Done false ->
   exists n, on_map width height (walk0 n) = false) /\
  ((List.length (all_states width height) - List.length states < fuel)%nat ->
   exists b,
     detect fuel grid width height obstruction_pos s cx cy dir = Done b).
Proof.
  induction fuel as [|fuel IH];
    intros i s states cx cy dir Hfor Hholds Hnd Hmem Hon Hi.
  - simpl. repeat split; try discriminate. lia.
  - destruct (is_in_bounds cx cy width height) eqn:Hin.
    2:{ rewrite detect_off_map by assumption.
        repeat split; try discriminate; [|eauto].
        intros _. exists i. rewrite Hi. exact Hin. }
    destruct (Hholds cx cy dir Hin) as (b & Hb & Hiff).
    destruct b.
    { rewrite detect_seen by assumption.
      repeat split; try discriminate; [|eauto].
      intros _.
      assert (In (cx, cy, dir) states) as Hseen by now apply Hiff.
      apply Hmem in Hseen. destruct Hseen as (j & Hj & Hw).
      apply (walk_periodic i j); [assumption|congruence|assumption]. }
    destruct (holds_states_set s states cx cy dir Hfor Hholds Hin)
      as (s' & Hset & Hfor' & Hholds').
    rewrite (detect_step fuel grid width height obstruction_pos s s'
               cx cy dir Hrect Hin Hb Hset).
    rewrite <- Hi, <- walk_succ.
    destruct (walk0 (S i)) as [[nx ny] ndir] eqn:Enext.
    assert (~ In (cx, cy, dir) states) as Hnew
      by (intros H; apply Hiff in H; discriminate).
    assert (forall j, (j < S i)%nat -> on_map width height (walk0 j) = true)
      as Hon'.
    { intros j Hj. destruct (Nat.eq_dec j i) as [->|Hne].
      - rewrite Hi. exact Hin.
      - apply Hon. lia. }
    assert (forall g, In g ((cx, cy, dir) :: states) <->
                      exists j, (j < S i)%nat /\ walk0 j = g) as Hmem'.
    { intros g. simpl. rewrite Hmem. split.
      - intros [<-|(j & Hj & Hg)].
        + exists i. split; [lia|assumption].
        + exists j. split; [lia|assumption].
      - intros (j & Hj & Hg). destruct (Nat.eq_dec j i) as [->|Hne].
        + left. congruence.
        + right. exists j. split; [lia|assumption]. }
    destruct (IH (S i) s' ((cx, cy, dir) :: states) nx ny ndir
                Hfor' Hholds' (NoDup_cons _ Hnew Hnd) Hmem' Hon' Enext)
      as (IH1 & IH2 & IH3).
    split; [assumption|]. split; [assumption|].
    intros Hfuel. apply IH3.
    assert (List.length ((cx, cy, dir) :: states)
            <= List.length (all_states width height))%nat as Hle.
    { apply NoDup_incl_length; [now constructor|].
      intros g Hg. apply all_states_In.
      apply Hmem' in Hg. destruct Hg as (j & Hj & <-). now apply Hon'. }
    change (List.length ((cx, cy, dir) :: states))
      with (S (List.length states)) in *.
    lia.
Qed.

Lemma detect_sound fuel :
  (simulate_with_loop_detection fuel grid start_x start_y start_dir obstruction_pos = Done true ->
   forall n, on_map width height (walk0 n) = true) /\
  (simulate_with_loop_detection fuel grid start_x start_y start_dir obstruction_pos = Done false ->
   exists n, on_map width height (walk0 n) = false).
Proof.
  unfold simulate_with_loop_detection.
  rewrite (rectangular_dimensions _ _ _ Hrect Hfit).
  destruct (state_set_spec width height Hfit)
    as ((s0 & -> & Hfor & Hempty) & _).
  destruct (detect_walk fuel 0 s0 [] start_x start_y start_dir)
    as (H1 & H2 & _); try assumption.
  - intros cx cy dir Hin. exists false. split; [now apply Hempty|].
    split; [discriminate|intros []].
  - constructor.
  - intros g. simpl. split; [intros []|intros (j & Hj & _); lia].
  - intros j Hj. lia.
  - reflexivity.
  - now split.
Qed.

(** X25. The answer of [simulate_with_loop_detection] is right, whatever the
    bound on its loop: on a rectangular map, with or without an added
    obstruction, when it returns true the guard that follows the rule never
    leaves the map, and when it returns false the guard does leave it. *)
Theorem simulate_with_loop_detection_sound fuel :
  (simulate_with_loop_detection fuel grid start_x start_y start_dir obstruction_pos = Done true ->
   forall n, on_map width height (walk0 n) = true) /\
  (simulate_with_loop_detection fuel grid start_x start_y start_dir obstruction_pos = Done false ->
   exists n, on_map width height (walk0 n) = false).
Proof. exact (detect_sound fuel). Qed.

Lemma detect_decides fuel :
  (4 * (Z.to_nat width * Z.to_nat height) < fuel)%nat ->
  exists b,
    simulate_with_loop_detection fuel grid start_x start_y start_dir obstruction_pos = Done b /\
    (b = true <-> forall n, on_map width height (walk0 n) = true).
Proof.
  intros Hfuel.
  pose proof (detect_sound fuel) as (Htrue & Hfalse).
  assert (exists b,
            simulate_with_loop_detection fuel grid start_x start_y start_dir obstruction_pos = Done b) as [b Hb].
  { unfold simulate_with_loop_detection.
    rewrite (rectangular_dimensions _ _ _ Hrect Hfit).
    destruct (state_set_spec width height Hfit)
      as ((s0 & -> & Hfor & Hempty) & _).
    destruct (detect_walk fuel 0 s0 [] start_x start_y start_dir)
      as (_ & _ & H3); try assumption.
    - intros cx cy dir Hin. exists false. split; [now apply Hempty|].
      split; [discriminate|intros []].
    - constructor.
    - intros g. simpl. split; [intros []|intros (j & Hj & _); lia].
    - intros j Hj. lia.
    - reflexivity.
    - apply H3. rewrite all_states_length. simpl. lia. }
  exists b. split; [assumption|]. split.
  - intros ->. now apply Htrue.
  - intros Hall. destruct b; [reflexivity|].
    destruct (Hfalse Hb) as (n & Hn). rewrite Hall in Hn. discriminate.
Qed.

(** X26. [simulate_with_loop_detection] always decides: on a rectangular
    map its loop ends within [4 * width * height + 1] iterations — it cannot
    meet more distinct states than that — and the answer is true exactly
    when the guard never leaves the map. *)
Theorem simulate_with_loop_detection_decides fuel :
  (4 * (Z.to_nat width * Z.to_nat height) < fuel)%nat ->
  exists b,
    simulate_with_loop_detection fuel grid start_x start_y start_dir obstruction_pos = Done b /\
    (b = true <-> forall n, on_map width height (walk0 n) = true).
Proof. exact (detect_decides fuel). Qed.

End Detect.

Lemma rectangular_square :
  rectangular [ ".#.."%string; "...#"%string; "#..."%string; "..#."%string ]
    4 4.
Proof.
  unfold rectangular. split; [discriminate|]. split; [reflexivity|].
  split; [lia|]. repeat constructor.
Defined.

Lemma simulate_with_loop_detection_sound_witness :
  on_map 4 4
    (walk [ ".#.."%string; "...#"%string; "#..."%string; "..#."%string ]
       4 4 None 1000 (1, 1, UP)) = true /\
  exists n,
    on_map 4 4
      (walk [ ".#.."%string; "...#"%string; "#..."%string; "..#."%string ]
         4 4 None n (0, 3, UP)) = false.
Proof.
  assert (fits 4 4) as Hfit by (unfold fits; lia).
  split.
  - apply (proj1 (simulate_with_loop_detection_sound
                    [ ".#.."%string; "...#"%string; "#..."%string;
                      "..#."%string ]
                    4 4 None 1 1 UP rectangular_square Hfit 10)).
    reflexivity.
  - apply (proj2 (simulate_with_loop_detection_sound
                    [ ".#.."%string; "...#"%string; "#..."%string;
                      "..#."%string ]
                    4 4 None 0 3 UP rectangular_square Hfit 10)).
    reflexivity.
Defined.

Lemma simulate_with_loop_detection_decides_witness :
  exists b,
    simulate_with_loop_detection 65
      [ ".#.."%string; "...#"%string; "#..."%string; "..#."%string ]
      1 1 UP (Some (mkPosition 0 0)) = Done b /\
    (b = true <->
     forall n,
       on_map 4 4
         (walk [ ".#.."%string; "...#"%string; "#..."%string; "..#."%string ]
            4 4 (Some (mkPosition 0 0)) n (1, 1, UP)) = true).
Proof.
  assert (fits 4 4) as Hfit by (unfold fits; lia).
  apply (simulate_with_loop_detection_decides
           [ ".#.."%string; "...#"%string; "#..."%string; "..#."%string ]
           4 4 (Some (mkPosition 0 0)) 1 1 UP rectangular_square Hfit 65).
  simpl. lia.
Defined.

(** ** Part 2 counts the trapping cells *)

Lemma NoDup_map_injective {U V : Type} (f : U -> V) l :
  (forall u u', f u = f u' -> u = u') -> NoDup l -> NoDup (map f l).
Proof.
  intros Hinj Hnd. induction Hnd as [|u l Hnotin Hnd IH]; simpl;
    constructor; [|assumption].
  intros H. apply in_map_iff in H. destruct H as (u' & E & Hin).
  apply Hinj in E. now subst.
Qed.

Lemma int_range_list_NoDup n : NoDup (int_range_list n).
Proof.
  unfold int_range_list. apply NoDup_map_injective; [|apply seq_NoDup].
  intros u u' H. lia.
Qed.

Lemma all_cells_NoDup width height : NoDup (all_cells width height).
Proof.
  unfold all_cells.
  pose proof (int_range_list_NoDup height) as Hnd.
  induction Hnd as [|cy l Hnotin Hnd IH]; simpl; [constructor|].
  apply NoDup_app; [|assumption|].
  - apply NoDup_map_injective; [|apply int_range_list_NoDup].
    intros u u' H. now injection H.
  - intros [cx cy'] Hin Hin'.
    apply in_map_iff in Hin. destruct Hin as (cx0 & E & _).
    injection E as -> ->.
    apply in_flat_map in Hin'. destruct Hin' as (cy0 & Hcy0 & Hin').
    apply in_map_iff in Hin'. destruct Hin' as (cx1 & E & _).
    injection E as _ ->. contradiction.
Qed.

Section Part2.

Variables (grid : list string) (width height : Z).
Variables (start_x start_y : Z) (start_dir : Direction).
Variable k : nat.
Variable fuel : nat.
Variable visited : BitPackedVisited.t.
Variable path : list (Z * Z).
Hypothesis Hrect : rectangular grid width height.
Hypothesis Hfit : fits width height.
Hypothesis Hfuel : (4 * (Z.to_nat width * Z.to_nat height) < fuel)%nat.
Hypothesis Hholds : holds_cells width height visited path.
Hypothesis Hpath :
  forall p,
    In p path <->
    exists j, (j < k)%nat /\
              position (walk grid width height None j
                          (start_x, start_y, start_dir)) = p.

Notation "'trapping' cell" :=
  (loop_position grid width height (start_x, start_y, start_dir) k cell)
  (at level 10, cell at level 9).

(** What the body of the candidate loop does with one cell of the map. *)
Lemma candidate_decides cx cy :
  is_in_bounds cx cy width height = true ->
  (trapping (cx, cy) /\
   forall cells count,
     count_loops fuel grid start_x start_y start_dir visited
       ((cx, cy) :: cells) count
     = count_loops fuel grid start_x start_y start_dir visited cells
         (count + 1)) \/
  (~ trapping (cx, cy) /\
   forall cells count,
     count_loops fuel grid start_x start_y start_dir visited
       ((cx, cy) :: cells) count
     = count_loops fuel grid start_x start_y start_dir visited cells count).
Proof.
  intros Hin. cbn [count_loops].
  destruct ((cx =? start_x) && (cy =? start_y)) eqn:Estart.
  { right. split; [|reflexivity].
    apply andb_true_iff in Estart. rewrite !Z.eqb_eq in Estart.
    destruct Estart as [-> ->]. intros (H & _). now apply H. }
  destruct (Hholds cx cy Hin) as (b & -> & Hiff).
  destruct b.
  2:{ right. split; [|reflexivity].
      intros (_ & Hon & _). apply Hpath, Hiff in Hon. discriminate. }
  destruct (rectangular_grid_at _ _ _ _ _ Hrect Hin) as [ch Hch].
  rewrite Hch.
  destruct (Ascii.eqb ch "#") eqn:Ech.
  { right. split; [|reflexivity].
    apply Ascii.eqb_eq in Ech. subst ch.
    intros (_ & _ & H & _). now apply H. }
  destruct (detect_decides grid width height (Some (mkPosition cx cy))
              start_x start_y start_dir Hrect Hfit fuel Hfuel)
    as (b & -> & Hb).
  destruct b.
  - left. split; [|reflexivity].
    split; [|split; [|split]].
    + intros E. injection E as -> ->. now rewrite !Z.eqb_refl in Estart.
    + apply Hpath. now apply Hiff.
    + simpl. rewrite Hch. intros E. injection E as ->. discriminate.
    + now apply Hb.
  - right. split; [|reflexivity].
    intros (_ & _ & _ & H). apply Hb in H. discriminate.
Qed.

Lemma count_loops_spec cells :
  NoDup cells ->
  (forall cx cy, In (cx, cy) cells ->
     is_in_bounds cx cy width height = true) ->
  forall count,
  exists good,
    count_loops fuel grid start_x start_y start_dir visited cells count
    = Done (count + Z.of_nat (List.length good)) /\
    NoDup good /\
    forall cell, In cell good <-> In cell cells /\ trapping cell.
Proof.
  intros Hnd. induction Hnd as [|[cx cy] cells Hnotin Hnd IH];
    intros Hcells count.
  - exists []. simpl. rewrite Z.add_0_r.
    repeat split; try constructor; tauto.
  - assert (forall cx' cy', In (cx', cy') cells ->
              is_in_bounds cx' cy' width height = true) as Hrest
      by (intros; apply Hcells; now right).
    assert (is_in_bounds cx cy width height = true) as Hin
      by (apply Hcells; now left).
    destruct (candidate_decides cx cy Hin) as [(Htrap & ->)|(Hno & ->)].
    + destruct (IH Hrest (count + 1)) as (good & -> & Hgood & Hmem).
      exists ((cx, cy) :: good). split; [|split].
      * cbn [List.length]. f_equal. lia.
      * constructor; [|assumption]. intros H. apply Hmem in H. tauto.
      * intros cell. simpl. rewrite Hmem. split.
        -- intros [<-|[H1 H2]]; auto.
        -- intros [[<-|H1] H2]; auto.
    + destruct (IH Hrest count) as (good & -> & Hgood & Hmem).
      exists good. split; [reflexivity|]. split; [assumption|].
      intros cell. simpl. rewrite Hmem. split.
      * intros [H1 H2]; auto.
      * intros [[<-|H1] H2]; [contradiction|auto].
Qed.

End Part2.

(** X27. [solve_part2] counts what the puzzle asks for.  When the guard
    found by [find_guard_start] on a rectangular map leaves the map after
    [k] states, and the bound on the loops is at least [k] and more than
    [4 * width * height], the answer is the number of distinct cells that
    are not the starting cell, lie on the guard's path, hold no obstacle,
    and where a new obstruction makes the guard walk for ever inside the
    map. *)
Theorem solve_part2_counts input grid width height start_x start_y start_dir
    k fuel :
  find_guard_start input = (grid, (start_x, start_y, start_dir)) ->
  rectangular grid width height ->
  fits width height ->
  (forall j, (j < k)%nat ->
     on_map width height
       (walk grid width height None j (start_x, start_y, start_dir)) = true) ->
  on_map width height
    (walk grid width height None k (start_x, start_y, start_dir)) = false ->
  (k <= fuel)%nat ->
  (4 * (Z.to_nat width * Z.to_nat height) < fuel)%nat ->
  exists good,
    Day06.solve_part2 fuel input
    = Done (to_string (Z.of_nat (List.length good))) /\
    NoDup good /\
    forall cell,
      In cell good <->
      loop_position grid width height (start_x, start_y, start_dir) k cell.
Proof.
  intros Hfind Hrect Hfit Hon Hoff Hk Hfuel.
  destruct (visited_spec width height Hfit)
    as ((v0 & Hnew & Hfor & Hcount & Hempty) & _).
  destruct (patrol_walk grid width height Hrect Hfit k fuel v0 []
              start_x start_y start_dir)
    as (v' & path & Hp & _ & _ & Hholds & Hmem); try assumption.
  { intros cx cy Hin. exists false. split; [now apply Hempty|].
    split; [discriminate|intros []]. }
  { constructor. }
  assert (forall p,
            In p path <->
            exists j, (j < k)%nat /\
                      position (walk grid width height None j
                                  (start_x, start_y, start_dir)) = p)
    as Hpath by (intros p; rewrite Hmem; simpl; tauto).
  destruct (count_loops_spec grid width height start_x start_y start_dir k
              fuel v' path Hrect Hfit Hfuel Hholds Hpath
              (all_cells width height) (all_cells_NoDup width height)
              (all_cells_in_bounds width height) 0)
    as (good & Hloops & Hgood & Hin).
  exists good. split; [|split; [assumption|]].
  - unfold Day06.solve_part2. rewrite Hfind.
    rewrite (rectangular_dimensions _ _ _ Hrect Hfit), Hnew, Hp, Hloops.
    reflexivity.
  - intros [cx cy]. rewrite Hin. split; [tauto|].
    intros Htrap. split; [|assumption].
    apply all_cells_In.
    destruct Htrap as (_ & (j & Hj & Hpos) & _).
    specialize (Hon j Hj).
    destruct (walk grid width height None j (start_x, start_y, start_dir))
      as [[wx wy] wd].
    simpl in Hpos. injection Hpos as -> ->. exact Hon.
Qed.

Lemma solve_part2_counts_witness :
  exists good,
    Day06.solve_part2 37 [ ".#."%string; "..."%string; ".^."%string ]
    = Done (to_string (Z.of_nat (List.length good))) /\
    NoDup good /\
    forall cell,
      In cell good <->
      loop_position [ ".#."%string; "..."%string; "..."%string ] 3 3
        (1, 2, UP) 4 cell.
Proof.
  apply (solve_part2_counts
           [ ".#."%string; "..."%string; ".^."%string ]
           [ ".#."%string; "..."%string; "..."%string ] 3 3 1 2 UP 4 37).
  - reflexivity.
  - exact rectangular_example.
  - unfold fits. lia.
  - intros j Hj.
    destruct j as [|[|[|[|j]]]]; try reflexivity. lia.
  - reflexivity.
  - lia.
  - simpl. lia.
Defined.

(** ** Part 1, from the input *)

Lemma string_length_app s1 s2 :
  String.length (s1 ++ s2)%string
  = (String.length s1 + String.length s2)%nat.
Proof. induction s1 as [|ch s1 IH]; simpl; congruence. Qed.

(** X28. [find_guard_start] keeps the shape of the map and starts the guard
    on it: on a rectangular map the grid it leaves is rectangular with the
    same dimensions, and the start it returns is a cell of the map, unless
    it is the (-1, -1) of a map without a guard. *)
Theorem find_guard_start_keeps_shape input width height :
  rectangular input width height ->
  rectangular (fst (find_guard_start input)) width height /\
  (fst (snd (find_guard_start input)) = (-1, -1) \/
   is_in_bounds (fst (fst (snd (find_guard_start input))))
     (snd (fst (snd (find_guard_start input)))) width height = true).
Proof.
  intros Hrect. unfold find_guard_start.
  destruct (scan_grid_spec input (int_loop_count (List.length input)) 0)
    as [(-> & _)|(before & pre & ch & post & after & dir
                  & -> & _ & _ & _ & ->)].
  - split; [assumption|]. now left.
  - destruct Hrect as (_ & Hh & Hlt & Hrows). cbn [fst snd].
    rewrite Forall_app in Hrows. destruct Hrows as (Hb & Hrest).
    inversion Hrest as [|r0 l0 Hrow Hafter]; subst r0 l0.
    rewrite string_length_app in Hrow. cbn [String.length] in Hrow.
    rewrite length_app in Hh. cbn [List.length] in Hh.
    split.
    + split; [now destruct before|].
      split; [rewrite length_app; cbn [List.length]; exact Hh|].
      split; [assumption|].
      apply Forall_app. split; [assumption|].
      constructor; [|assumption].
      rewrite string_length_app. cbn [String.length]. exact Hrow.
    + right. apply is_in_bounds_iff. lia.
Qed.

Lemma find_guard_start_keeps_shape_witness :
  rectangular
    (fst (find_guard_start [ ".#."%string; "..."%string; ".^."%string ]))
    3 3 /\
  (fst (snd (find_guard_start [ ".#."%string; "..."%string; ".^."%string ]))
   = (-1, -1) \/
   is_in_bounds
     (fst (fst (snd (find_guard_start
                       [ ".#."%string; "..."%string; ".^."%string ]))))
     (snd (fst (snd (find_guard_start
                       [ ".#."%string; "..."%string; ".^."%string ]))))
     3 3 = true).
Proof.
  apply (find_guard_start_keeps_shape
           [ ".#."%string; "..."%string; ".^."%string ] 3 3).
  unfold rectangular. split; [discriminate|]. split; [reflexivity|].
  split; [lia|]. repeat constructor.
Defined.

(** X29. [solve_part1] counts what the puzzle asks for.  When the guard
    found by [find_guard_start] on a rectangular map leaves the map after
    [k] states and the bound on the loop is at least [k], the answer is the
    decimal number of distinct cells among the positions of these [k]
    states. *)
Theorem solve_part1_counts input grid width height start_x start_y start_dir
    k fuel :
  find_guard_start input = (grid, (start_x, start_y, start_dir)) ->
  rectangular grid width height ->
  fits width height ->
  (forall j, (j < k)%nat ->
     on_map width height
       (walk grid width height None j (start_x, start_y, start_dir)) = true) ->
  on_map width height
    (walk grid width height None k (start_x, start_y, start_dir)) = false ->
  (k <= fuel)%nat ->
  exists cells,
    Day06.solve_part1 fuel input
    = Done (to_string (Z.of_nat (List.length cells))) /\
    NoDup cells /\
    forall p,
      In p cells <->
      exists j, (j < k)%nat /\
                position (walk grid width height None j
                            (start_x, start_y, start_dir)) = p.
Proof.
  intros Hfind Hrect Hfit Hon Hoff Hk.
  destruct (patrol_counts grid width height Hrect Hfit
              start_x start_y start_dir k fuel Hon Hoff Hk)
    as (cells & Hsim & Hnd & Hmem).
  exists cells. split; [|split; assumption].
  unfold Day06.solve_part1. now rewrite Hfind, Hsim.
Qed.

Lemma solve_part1_counts_witness :
  exists cells,
    Day06.solve_part1 4 [ ".#."%string; "..."%string; ".^."%string ]
    = Done (to_string (Z.of_nat (List.length cells))) /\
    NoDup cells /\
    forall p,
      In p cells <->
      exists j, (j < 4)%nat /\
                position
                  (walk [ ".#."%string; "..."%string; "..."%string ] 3 3 None
                     j (1, 2, UP)) = p.
Proof.
  apply (solve_part1_counts
           [ ".#."%string; "..."%string; ".^."%string ]
           [ ".#."%string; "..."%string; "..."%string ] 3 3 1 2 UP 4 4).
  - reflexivity.
  - exact rectangular_example.
  - unfold fits. lia.
  - intros j Hj.
    destruct j as [|[|[|[|j]]]]; try reflexivity. lia.
  - reflexivity.
  - lia.
Defined.

End Day06Facts.
